(** * rtlamr: the receive loop of [recv.go]

    A shallow embedding of [Receiver.Run] and of the tail of [main]
    (recv.go), with the properties of the capture / decode / output
    pipeline stated over it.

    The radio transport, the decoder, the parser, the clock and the two
    output files are the program's collaborators.  The decoder and the
    parser are kept abstract behind interfaces (type classes); the
    answers of the operating system (what [select] finds ready, what a
    read delivers, whether a write succeeds, what the clock shows) are
    supplied, iteration by iteration, by a script.  Every call the loop
    makes on the outside world is recorded as an [Event]; the properties
    are statements about the resulting traces. *)

From Stdlib Require Import ZArith.
From Stdlib.Strings Require Import Byte.
From stdpp Require Import base option list sorting gmap strings.

Set Default Proof Using "Type".

(** ** The Go fragments the loop relies on *)

Module Go.

(** [int] on the 64-bit targets: arithmetic wraps in two's complement. *)
Definition int (z : Z) : Z := ((z + 2 ^ 63) `mod` 2 ^ 64 - 2 ^ 63)%Z.

(** [x << 1] on an [int]. *)
Definition shl1 (x : Z) : Z := int (Z.shiftl x 1).

(** [make([]byte, n)]: a zeroed slice; a negative length panics.  The run
    time also refuses a length it cannot allocate; how much memory the
    machine has is no part of this model, in which every other length is
    allocated. *)
Definition make (n : Z) : option (list byte) :=
  if (n <? 0)%Z then None else Some (replicate (Z.to_nat n) x00).

(** What a successful [Read(buf)] leaves in [buf]: the bytes received
    overwrite the front of the buffer, the rest keeps its old content
    (the count returned by [Read] is discarded by the loop). *)
Definition fill (buf data : list byte) : list byte :=
  take (length buf) data ++ drop (length data) buf.

(** [os.DevNull]. *)
Definition DevNull : string := "/dev/null".

(** Modelled from the spec: the declarations of [meterID] and [meterType]
    are not in recv.go.  The spec calls them sets of unsigned identifiers;
    [Run] takes their [len] and negates the result of indexing them with
    a [uint], which is how a Go [map[uint]bool] serves as a set: [len(m)]
    counts the keys and [m[k]] yields [false] for an absent key. *)
Definition len (m : gmap N bool) : nat := size m.
Definition index (m : gmap N bool) (k : N) : bool := default false (m !! k).

(** The conversions [uint(x)] of a [uint32] or a [uint8]: widening,
    the value is kept. *)
Definition uint (x : N) : N := x.

End Go.

(** ** Data *)

Definition Packet := list byte.

(** The decoder's packet configuration ([decode.PacketConfig], declared
    in the decode package), restricted to the fields [Run] reads. *)
Record PacketConfig := mkPacketConfig { BlockSize2 : Z; BufferLength : Z }.

(** [parse.Message]: the two accessors the filter uses. *)
Class Message (Msg : Type) := {
  MeterID : Msg -> N;
  MeterType : Msg -> N
}.

(** [parse.Parser]; [Parse] stands for
    [rcvr.p.Parse(parse.NewDataFromBytes(pkt))], [None] for a non-nil
    error. *)
Class Parser (Msg : Type) := {
  Parse : Packet -> option Msg
}.

(** [decode.Decoder]: its configuration, the decoding of one block (which
    may update the decoder's buffers) and the raw samples [IQ] it holds. *)
Class Decoder (D : Type) := {
  Cfg : D -> PacketConfig;
  Decode : D -> list byte -> D * list Packet;
  IQ : D -> list byte
}.

(** The structured encoders behind the [encoder] variable; the loop only
    asks whether it holds an [*xml.Encoder]. *)
Inductive Encoder := XmlEncoder | OtherEncoder.

(** Modelled from the spec: the command-line variables [Run] reads are
    declared outside recv.go (only [cpuprofile] is declared in it); their
    types are read off their uses in [Run]: a switch, a file name compared
    with [os.DevNull], a duration compared with 0, an encoder that may be
    nil, and the two inclusion sets. *)
Record Flags := mkFlags {
  single : bool;
  sampleFilename : string;
  timeLimit : Z;
  encoder : option Encoder;      (* [None] is the nil encoder: plain text *)
  meterID : gmap N bool;
  meterType : gmap N bool;
  cpuprofile : string
}.

(** What [rcvr.Read(block)] answers. *)
Inductive ReadResult := ReadOk (data : list byte) | ReadErr.

(** The outside world during one iteration of the loop. *)
Record Iter := mkIter {
  it_sigint : bool;            (* a signal is waiting on [sigint] *)
  it_timer : bool;             (* the timer of [time.After] has fired *)
  it_pick : bool;              (* both ready: [true] takes the [sigint] case *)
  it_clock : Z;                (* the clock at the top of the iteration *)
  it_read : ReadResult;
  it_now : nat -> Z;           (* [time.Now()] at the k-th candidate *)
  it_fprintln : nat -> bool;   (* does [fmt.Fprintln(logFile, ..)] succeed *)
  it_encode : nat -> bool;     (* does [encoder.Encode(msg)] succeed *)
  it_write : bool              (* does [sampleFile.Write(..)] succeed *)
}.

Inductive Case := CaseSigint | CaseTLimit | CaseDefault.

Inductive FatalMsg :=
  ErrReadingSamples | ErrEncodingMessage | ErrWritingSamples | ErrCreateProfile.

Inductive Resource := TheReceiver | TheSampleFile | TheLogFile | TheProfile.

(** How a computation ends: with a value, or with the end of the process.
    [log.Fatal] prints and calls [os.Exit(1)]; a run-time panic unwinds. *)
Inductive Res (A : Type) := Ok (a : A) | Exit1 | Panic.
Arguments Ok {A} a.
Arguments Exit1 {A}.
Arguments Panic {A}.

Section Receiver.

Context {Msg D : Type} `{!Message Msg, !Parser Msg, !Decoder D}.

Record LogMessage := mkLogMessage { Time : Z; Offset : Z; Length : Z; Message_ : Msg }.

(** What is handed to [fmt.Fprintln(logFile, ..)]. *)
Inductive LogText :=
| StringNoOffset (msg : LogMessage)
| StringOf (msg : LogMessage)
| EmptyLine.

(** The calls on the outside world, with the answer where the loop
    could see one. *)
Inductive Event :=
| EvRead (ok : bool)
| EvFprintln (t : LogText) (ok : bool)
| EvEncode (msg : LogMessage) (ok : bool)
| EvSampleWrite (iq : list byte) (ok : bool)
| EvTimeLimit (elapsed : Z)
| EvFatal (what : FatalMsg)
| EvClose (r : Resource).

(** *** A writer / exit monad

    A computation produces the events it caused and the way it ended. *)
Definition M (A : Type) : Type := list Event * Res A.

Definition ret {A} (a : A) : M A := ([], Ok a).

Definition bind {A B} (m : M A) (f : A -> M B) : M B :=
  match m with
  | (tr, Ok a) => let '(tr', r) := f a in (tr ++ tr', r)
  | (tr, Exit1) => (tr, Exit1)
  | (tr, Panic) => (tr, Panic)
  end.

Definition emit (e : Event) : M unit := ([e], Ok tt).

Definition fatal {A} (what : FatalMsg) : M A := ([EvFatal what], Exit1).

Notation "'do' x <- m ; k" := (bind m (fun x => k))
  (at level 10, x name, m at level 100, k at level 200).
Notation "'run' m ; k" := (bind m (fun _ => k))
  (at level 10, m at level 100, k at level 200).

(** *** The loop *)

Variable fl : Flags.

(** The loop's own variables: the reused sample block, the decoder, and
    the write position of [sampleFile]. *)
Record State := mkState { block : list byte; dec : D; sample_pos : Z }.

(** Raw-sample capture is on unless the sample file is [os.DevNull]. *)
Definition capture : bool := negb (String.eqb (sampleFilename fl) Go.DevNull).

(** Lines 144-150: the two guards that [continue]. *)
Definition skip_id (scm : Msg) : bool :=
  (0 <? Go.len (meterID fl)) && negb (Go.index (meterID fl) (Go.uint (MeterID scm))).

Definition skip_type (scm : Msg) : bool :=
  (0 <? Go.len (meterType fl)) && negb (Go.index (meterType fl) (Go.uint (MeterType scm))).

(** Lines 152-156. [sampleFile.Seek(0, os.SEEK_CUR)] reports the current
    write position; its error is discarded.  In this section the sample
    file is a regular file, known by its write position [sample_pos];
    [Run_on] below runs the same loop on a sample file of any kind. *)
Definition log_message (it : Iter) (st : State) (k : nat) (scm : Msg) : LogMessage :=
  {| Time := it_now it k;
     Offset := sample_pos st;
     Length := Go.shl1 (BufferLength (Cfg (dec st)));
     Message_ := scm |}.

(** Lines 158-176. *)
Definition output (it : Iter) (k : nat) (msg : LogMessage) : M unit :=
  match encoder fl with
  | None =>
      if String.eqb (sampleFilename fl) Go.DevNull
      then emit (EvFprintln (StringNoOffset msg) (it_fprintln it k))
      else emit (EvFprintln (StringOf msg) (it_fprintln it k))
  | Some e =>
      run emit (EvEncode msg (it_encode it k)) ;
      if it_encode it k then
        match e with
        | XmlEncoder => emit (EvFprintln EmptyLine (it_fprintln it k))
        | OtherEncoder => ret tt
        end
      else fatal ErrEncodingMessage
  end.

(** The body of the [for .. range] loop for one candidate; the result
    says whether [pktFound = true] was reached. *)
Definition candidate (it : Iter) (st : State) (k : nat) (pkt : Packet) : M bool :=
  match Parse pkt with
  | None => ret false
  | Some scm =>
      if skip_id scm then ret false
      else if skip_type scm then ret false
      else run output it k (log_message it st k scm) ; ret true
  end.

(** Lines 136-182: the loop over the candidates, from the [k]-th on,
    with the current value of [pktFound]; in single mode it [break]s
    after the first accepted message. *)
Fixpoint candidates (it : Iter) (st : State) (k : nat) (pkts : list Packet)
    (pktFound : bool) : M bool :=
  match pkts with
  | [] => ret pktFound
  | pkt :: rest =>
      do found <- candidate it st k pkt ;
      if found then
        if single fl then ret true
        else candidates it st (S k) rest true
      else candidates it st (S k) rest pktFound
  end.

(** Lines 123-129: which case the [select] takes.  [tLimit] can only be
    ready when a time limit was set. *)
Definition select (it : Iter) : Case :=
  let t := negb (timeLimit fl =? 0)%Z && it_timer it in
  match it_sigint it, t with
  | true, true => if it_pick it then CaseSigint else CaseTLimit
  | true, false => CaseSigint
  | false, true => CaseTLimit
  | false, false => CaseDefault
  end.

(** Lines 184-190: the capture-file write after the candidates.  On the
    regular file of this section a successful write moves the position
    by the bytes written. *)
Definition write_samples (it : Iter) (st : State) : M State :=
  if capture then
    run emit (EvSampleWrite (IQ (dec st)) (it_write it)) ;
    if it_write it
    then ret {| block := block st; dec := dec st;
                sample_pos := (sample_pos st + Z.of_nat (length (IQ (dec st))))%Z |}
    else fatal ErrWritingSamples
  else ret st.

(** One turn of the [for]: [Some st'] to go round again, [None] when
    [Run] returns. *)
Definition iteration (start : Z) (it : Iter) (st : State) : M (option State) :=
  match select it with
  | CaseSigint => ret None
  | CaseTLimit => run emit (EvTimeLimit (it_clock it - start)%Z) ; ret None
  | CaseDefault =>
      match it_read it with
      | ReadErr => run emit (EvRead false) ; fatal ErrReadingSamples
      | ReadOk data =>
          run emit (EvRead true) ;
          let blk := Go.fill (block st) data in
          let '(d', pkts) := Decode (dec st) blk in
          let st1 := {| block := blk; dec := d'; sample_pos := sample_pos st |} in
          do pktFound <- candidates it st1 0 pkts false ;
          if pktFound then
            do st2 <- write_samples it st1 ;
            if single fl then ret None else ret (Some st2)
          else ret (Some st1)
      end
  end.

(** How a run ends: [Run] returned, or the script ran out while the loop
    was still going, in the state given. *)
Inductive Outcome := Returned | Running (st : State).

Fixpoint loop (start : Z) (script : list Iter) (st : State) : M Outcome :=
  match script with
  | [] => ret (Running st)
  | it :: rest =>
      do s <- iteration start it st ;
      match s with
      | None => ret Returned
      | Some st' => loop start rest st'
      end
  end.

(** [Run], from the allocation of the block on: [d] is the receiver's
    decoder, [pos] the write position of [sampleFile], [start] the
    clock when the loop is entered. *)
Definition Run (d : D) (pos : Z) (start : Z) (script : list Iter) : M Outcome :=
  match Go.make (BlockSize2 (Cfg d)) with
  | None => ([], Panic)
  | Some blk => loop start script {| block := blk; dec := d; sample_pos := pos |}
  end.

(** The tail of [main] (lines 214-227): the deferred closes, the optional
    CPU profile, [rcvr.Run()].  Deferred calls run, last first, when
    [main] returns or panics; [os.Exit] inside [log.Fatal] runs none. *)
Inductive Status := Exited (code : Z) | StillRunning.

Definition deferred : list Event :=
  (if String.eqb (cpuprofile fl) "" then [] else [EvClose TheProfile])
  ++ [EvClose TheReceiver; EvClose TheSampleFile; EvClose TheLogFile].

Definition main (create_ok : bool) (d : D) (pos start : Z) (script : list Iter)
    : list Event * Status :=
  if negb (String.eqb (cpuprofile fl) "") && negb create_ok
  then ([EvFatal ErrCreateProfile], Exited 1)
  else
    match Run d pos start script with
    | (tr, Ok Returned) => (tr ++ deferred, Exited 0)
    | (tr, Ok (Running _)) => (tr, StillRunning)
    | (tr, Exit1) => (tr, Exited 1)
    | (tr, Panic) => (tr ++ deferred, Exited 2)
    end.

(** A computation that ends the process with [os.Exit(1)], the events
    [last] being the last it caused. *)
Definition dies_with {A} (last : list Event) (m : M A) : Prop :=
  exists tr, m = (tr ++ last, Exit1).

(** *** What a trace shows *)

(** The Log Entries handed to the log sink, in order. *)
Definition entry_of (e : Event) : option LogMessage :=
  match e with
  | EvFprintln (StringNoOffset msg) _ => Some msg
  | EvFprintln (StringOf msg) _ => Some msg
  | EvEncode msg _ => Some msg
  | _ => None
  end.

Definition log_entries (tr : list Event) : list LogMessage := omap entry_of tr.

(** The writes made on the capture file, in order. *)
Definition write_of (e : Event) : option (list byte) :=
  match e with
  | EvSampleWrite iq _ => Some iq
  | _ => None
  end.

Definition sample_writes (tr : list Event) : list (list byte) := omap write_of tr.

(** The reads started on the transport. *)
Definition read_of (e : Event) : option bool :=
  match e with
  | EvRead ok => Some ok
  | _ => None
  end.

Definition reads (tr : list Event) : list bool := omap read_of tr.

Definition close_of (e : Event) : option Resource :=
  match e with
  | EvClose r => Some r
  | _ => None
  end.

Definition closes (tr : list Event) : list Resource := omap close_of tr.

(** The write position of the capture file replayed along a trace: each
    entry is paired with the position the file had when the entry was
    composed; only a write on the capture file moves the position. *)
Fixpoint positions (pos : Z) (tr : list Event) : list (LogMessage * Z) :=
  match tr with
  | [] => []
  | e :: tr' =>
      match e with
      | EvSampleWrite iq _ => positions (pos + Z.of_nat (length iq))%Z tr'
      | _ =>
          match entry_of e with
          | Some msg => (msg, pos) :: positions pos tr'
          | None => positions pos tr'
          end
      end
  end.

(** The number of bytes a trace adds to the capture file. *)
Definition written (tr : list Event) : Z :=
  foldr (fun iq n => (Z.of_nat (length iq) + n)%Z) 0%Z (sample_writes tr).

(** *** The candidates of a block, seen from outside the loop *)

(** The filter of section 4.2, as the two guards leave it. *)
Definition accept (scm : Msg) : bool := negb (skip_id scm) && negb (skip_type scm).

(** The message a candidate yields when it parses and passes the filter. *)
Definition accepted (pkt : Packet) : option Msg :=
  match Parse pkt with
  | Some scm => if accept scm then Some scm else None
  | None => None
  end.

(** The accepted messages of a block with the index of their candidate. *)
Fixpoint accepted_from (k : nat) (pkts : list Packet) : list (nat * Msg) :=
  match pkts with
  | [] => []
  | pkt :: rest =>
      match accepted pkt with
      | Some scm => (k, scm) :: accepted_from (S k) rest
      | None => accepted_from (S k) rest
      end
  end.

(** The state and the candidates after the read and the decoding of an
    iteration in which neither exit signal is taken and the read
    succeeds. *)
Definition next_block (it : Iter) (st : State) : option (State * list Packet) :=
  match select it, it_read it with
  | CaseDefault, ReadOk data =>
      let blk := Go.fill (block st) data in
      let '(d', pkts) := Decode (dec st) blk in
      Some ({| block := blk; dec := d'; sample_pos := sample_pos st |}, pkts)
  | _, _ => None
  end.

(** The state after a run of iterations each of which reads a block that
    yields no accepted message. *)
Fixpoint quiet (script : list Iter) (st : State) : option State :=
  match script with
  | [] => Some st
  | it :: rest =>
      match next_block it st with
      | Some (st', pkts) =>
          match accepted_from 0 pkts with
          | [] => quiet rest st'
          | _ :: _ => None
          end
      | None => None
      end
  end.

End Receiver.

(** The flags with the single-shot switch set as given. *)
Definition set_single (b : bool) (fl : Flags) : Flags :=
  {| single := b; sampleFilename := sampleFilename fl; timeLimit := timeLimit fl;
     encoder := encoder fl; meterID := meterID fl; meterType := meterType fl;
     cpuprofile := cpuprofile fl |}.

Arguments LogMessage : clear implicits.
Arguments LogText : clear implicits.
Arguments Event : clear implicits.
Arguments M : clear implicits.
Arguments State : clear implicits.
Arguments Outcome : clear implicits.

(** ** A test bench

    A small parser and decoder to run the loop on: a candidate is a pair
    of bytes, the meter's identifier and its type; a candidate whose
    first byte is zero does not parse.  The decoder cuts the block into
    pairs and keeps the block as its raw samples. *)

Module Bench.

Definition Msg : Type := N * N.

Definition num (b : byte) : N := Byte.to_N b.

#[export] Instance bench_message : Message Msg :=
  {| MeterID := fst; MeterType := snd |}.

#[export] Instance bench_parser : Parser Msg :=
  {| Parse := fun pkt =>
       match pkt with
       | [a; b] => if (num a =? 0)%N then None else Some (num a, num b)
       | _ => None
       end |}.

Fixpoint pairs (l : list byte) : list Packet :=
  match l with
  | a :: b :: rest => [a; b] :: pairs rest
  | _ => []
  end.

Definition D : Type := PacketConfig * list byte.

#[export] Instance bench_decoder : Decoder D :=
  {| Cfg := fst;
     Decode := fun d blk => ((fst d, blk), pairs blk);
     IQ := snd |}.

(** Four-byte blocks: two candidates a block. *)
Definition d0 : D := ({| BlockSize2 := 4; BufferLength := 2 |}, [x00; x00; x00; x00]).

(** A configuration in which the decoder's buffer is longer than the
    block, as when the buffer holds a packet besides the block. *)
Definition d1 : D := ({| BlockSize2 := 8192; BufferLength := 18112 |}, []).

Definition flags (single : bool) (file : string) (enc : option Encoder)
    (ids types : gmap N bool) : Flags :=
  {| single := single; sampleFilename := file; timeLimit := 0; encoder := enc;
     meterID := ids; meterType := types; cpuprofile := "" |}.

(** An iteration with no signal in which every call succeeds. *)
Definition reading (data : list byte) : Iter :=
  {| it_sigint := false; it_timer := false; it_pick := false; it_clock := 0;
     it_read := ReadOk data; it_now := fun k => Z.of_nat k;
     it_fprintln := fun _ => true; it_encode := fun _ => true; it_write := true |}.

(** The same with a log sink that refuses every write. *)
Definition reading_sink_down (data : list byte) : Iter :=
  {| it_sigint := false; it_timer := false; it_pick := false; it_clock := 0;
     it_read := ReadOk data; it_now := fun k => Z.of_nat k;
     it_fprintln := fun _ => false; it_encode := fun _ => false; it_write := true |}.

(** An iteration whose read fails. *)
Definition failing : Iter :=
  {| it_sigint := false; it_timer := false; it_pick := false; it_clock := 0;
     it_read := ReadErr; it_now := fun k => Z.of_nat k;
     it_fprintln := fun _ => true; it_encode := fun _ => true; it_write := true |}.

(** An iteration that finds the interrupt signal. *)
Definition interrupted : Iter :=
  {| it_sigint := true; it_timer := false; it_pick := false; it_clock := 0;
     it_read := ReadErr; it_now := fun k => Z.of_nat k;
     it_fprintln := fun _ => true; it_encode := fun _ => true; it_write := true |}.

Definition noise : list byte := [x00; x07; x00; x09].
Definition one_meter : list byte := [x05; x07; x00; x09].
Definition two_meters : list byte := [x05; x07; x06; x07].

Definition st0 : State D := {| block := [x00; x00; x00; x00]; dec := d0; sample_pos := 0 |}.

(** The state once a block holding [data] has been read and decoded. *)
Definition after (data : list byte) : State D :=
  {| block := data; dec := (fst d0, data); sample_pos := 0 |}.

(** Plain text with capture to a file, in normal and in single-shot mode;
    the same restricted to meter 5; a structured encoder. *)
Definition plain : Flags := flags false "raw.bin" None ∅ ∅.
Definition plain_single : Flags := flags true "raw.bin" None ∅ ∅.
Definition only_meter_5 : Flags := flags false "raw.bin" None {[5%N := true]} ∅.
Definition json : Flags := flags false "raw.bin" (Some OtherEncoder) ∅ ∅.

End Bench.

(** ** More to read off a trace *)

Section Observers.

Context {Msg : Type}.

(** What was handed to [fmt.Fprintln(logFile, ..)], in order. *)
Definition line_of (e : Event Msg) : option (LogText Msg) :=
  match e with
  | EvFprintln t _ => Some t
  | _ => None
  end.

Definition lines (tr : list (Event Msg)) : list (LogText Msg) := omap line_of tr.

(** The calls of [encoder.Encode] with their outcome, in order. *)
Definition encode_of (e : Event Msg) : option (LogMessage Msg * bool) :=
  match e with
  | EvEncode msg ok => Some (msg, ok)
  | _ => None
  end.

Definition encodes (tr : list (Event Msg)) : list (LogMessage Msg * bool) :=
  omap encode_of tr.

(** The "Time Limit Reached" reports. *)
Definition time_limit_of (e : Event Msg) : option Z :=
  match e with
  | EvTimeLimit elapsed => Some elapsed
  | _ => None
  end.

Definition time_limits (tr : list (Event Msg)) : list Z := omap time_limit_of tr.

(** The reports of [log.Fatal]. *)
Definition fatal_of (e : Event Msg) : option FatalMsg :=
  match e with
  | EvFatal what => Some what
  | _ => None
  end.

Definition fatals (tr : list (Event Msg)) : list FatalMsg := omap fatal_of tr.

(** The line of plain text written for an entry: without the offset when
    the sample file is [os.DevNull] (lines 160-164). *)
Definition plain_line (fl : Flags) (msg : LogMessage Msg) : LogText Msg :=
  if String.eqb (sampleFilename fl) Go.DevNull then StringNoOffset msg else StringOf msg.

End Observers.

(** ** What the flags allow a run to do *)

Section Allowed.

Context {Msg D : Type} `{!Message Msg, !Parser Msg, !Decoder D}.

(** The events a run under the flags [fl] can cause, read off the
    branches of [Run]: a line of plain text only without an encoder, with
    or without the offset as the sample file says, and only for a message
    that passes the filter; an empty line only behind the XML encoder; a
    write of samples only with capture on; the report of the time limit
    only with a limit set; no close and no profile error inside [Run]. *)
Definition allowed (fl : Flags) (e : Event Msg) : bool :=
  match e with
  | EvRead _ => true
  | EvFprintln (StringNoOffset msg) _ =>
      match encoder fl with
      | None => negb (capture fl) && accept fl (Message_ msg)
      | Some _ => false
      end
  | EvFprintln (StringOf msg) _ =>
      match encoder fl with
      | None => capture fl && accept fl (Message_ msg)
      | Some _ => false
      end
  | EvFprintln EmptyLine _ =>
      match encoder fl with
      | Some XmlEncoder => true
      | _ => false
      end
  | EvEncode msg _ =>
      match encoder fl with
      | Some _ => accept fl (Message_ msg)
      | None => false
      end
  | EvSampleWrite _ _ => capture fl
  | EvTimeLimit _ => negb (timeLimit fl =? 0)%Z
  | EvFatal ErrReadingSamples => true
  | EvFatal ErrEncodingMessage =>
      match encoder fl with
      | Some _ => true
      | None => false
      end
  | EvFatal ErrWritingSamples => capture fl
  | EvFatal ErrCreateProfile => false
  | EvClose _ => false
  end.

(** A computation that reports a fatal error exactly when it ends the
    process, as its last event, and never panics. *)
Definition ends_well {A} (m : M Msg A) : Prop :=
  match m.2 with
  | Ok _ => fatals m.1 = []
  | Exit1 => exists tr what, m.1 = tr ++ [EvFatal what] /\ fatals tr = []
  | Panic => False
  end.

(** The records the encoder took without error. *)
Definition encoded_of (e : Event Msg) : option (LogMessage Msg) :=
  match e with
  | EvEncode msg true => Some msg
  | _ => None
  end.

Definition encoded (tr : list (Event Msg)) : list (LogMessage Msg) := omap encoded_of tr.

(** What the loop does once the first part of the stream is used up. *)
Definition resume (fl : Flags) (start : Z) (rest : list Iter) (o : Outcome D)
    : M Msg (Outcome D) :=
  match o with
  | Returned => ret Returned
  | Running st => loop fl start rest st
  end.

End Allowed.

(** ** Start-up: [NewReceiver] (lines 49-105) *)

(** The two message types [NewReceiver] knows. *)
Inductive Protocol := SCM | IDM.

Inductive SetupFatal := InvalidMessageType (msgType : string) | ConnectFailed.

(** The calls [NewReceiver] makes, in the order it makes them. *)
Inductive SetupEvent :=
| SuLogConfig (p : Protocol)        (* [rcvr.d.Cfg.Log()] *)
| SuLogCRC (p : Protocol)           (* [log.Println("CRC:", rcvr.p)] *)
| SuConnect (ok : bool)             (* [rcvr.Connect(nil)] *)
| SuHandleFlags                     (* [rcvr.HandleFlags()] *)
| SuLogGainCount
| SuSetCenterFreq (hz : Z)
| SuSetSampleRate (hz : Z)
| SuSetGainMode (auto : bool)
| SuFatal (what : SetupFatal).

(** What [NewReceiver] finds: the flags it reads, the names of the flags
    set on the command line (as [flag.Visit] hands them over), whether
    the connection succeeds, and the value of
    [uint32(rcvr.Flags.CenterFreq)]. *)
Record Setup := mkSetup {
  msgType : string;
  symbolLength : Z;
  fastMag : bool;
  quiet_ : bool;                (* [*quiet] *)
  visited : list string;
  connect_ok : bool;
  centerFreq : Z
}.

(** The three variables the closure passed to [flag.Visit] sets. *)
Record Seen := mkSeen {
  centerfreqFlagSet : bool;
  sampleRateFlagSet : bool;
  gainFlagSet : bool
}.

(** The body of the closure (lines 82-89). *)
Definition visit (s : Seen) (name : string) : Seen :=
  if String.eqb name "centerfreq" then
    {| centerfreqFlagSet := true; sampleRateFlagSet := sampleRateFlagSet s;
       gainFlagSet := gainFlagSet s |}
  else if String.eqb name "samplerate" then
    {| centerfreqFlagSet := centerfreqFlagSet s; sampleRateFlagSet := true;
       gainFlagSet := gainFlagSet s |}
  else if String.eqb name "gainbyindex" || String.eqb name "tunergainmode"
          || String.eqb name "tunergain" || String.eqb name "agcmode" then
    {| centerfreqFlagSet := centerfreqFlagSet s; sampleRateFlagSet := sampleRateFlagSet s;
       gainFlagSet := true |}
  else s.

Definition Visit (names : list string) : Seen :=
  foldl visit {| centerfreqFlagSet := false; sampleRateFlagSet := false;
                 gainFlagSet := false |} names.

(** The flags that switch the automatic gain off (line 87). *)
Definition gain_flags : list string :=
  ["gainbyindex"; "tunergainmode"; "tunergain"; "agcmode"].

(** The conversion [uint32(x)] of an [int]. *)
Definition uint32_of_int (x : Z) : Z := (x `mod` 2 ^ 32)%Z.

(** The [switch] of lines 50-59 on the lower-cased message type. *)
Definition protocol_of (lowered : string) : option Protocol :=
  if String.eqb lowered "scm" then Some SCM
  else if String.eqb lowered "idm" then Some IDM
  else None.

Section Startup.

Context {Msg D : Type} `{!Message Msg, !Decoder D}.

(** [strings.ToLower], the construction of the decoder
    ([decode.NewDecoder] on the packet configuration of the protocol) and
    the [SampleRate] field of the decoder's configuration belong to other
    packages: they are taken as given. *)
Variable ToLower : string -> string.
Variable NewDecoder : Protocol -> Z -> bool -> D.
Variable SampleRate : D -> Z.

(** The parser [NewReceiver] installs for each protocol. *)
Variable parsers : Protocol -> Parser Msg.

(** [NewReceiver]: the trace of its calls and, unless it ends the process,
    the protocol chosen with the decoder built for it. *)
Definition NewReceiver (su : Setup) : list SetupEvent * Res (Protocol * D) :=
  match protocol_of (ToLower (msgType su)) with
  | None => ([SuFatal (InvalidMessageType (msgType su))], Exit1)
  | Some p =>
      let d := NewDecoder p (symbolLength su) (fastMag su) in
      let logs := if quiet_ su then [] else [SuLogConfig p; SuLogCRC p] in
      if connect_ok su then
        let seen := Visit (visited su) in
        (logs ++ [SuConnect true; SuHandleFlags]
           ++ (if quiet_ su then [] else [SuLogGainCount])
           ++ (if centerfreqFlagSet seen then [] else [SuSetCenterFreq (centerFreq su)])
           ++ (if sampleRateFlagSet seen then []
               else [SuSetSampleRate (uint32_of_int (SampleRate d))])
           ++ (if gainFlagSet seen then [] else [SuSetGainMode true]),
         Ok (p, d))
      else (logs ++ [SuConnect false; SuFatal ConnectFailed], Exit1)
  end.

(** [main] from [rcvr.NewReceiver()] on (lines 212-227): the start-up, then
    the deferred closes, the profile and [Run] with the parser and the
    decoder the start-up installed. *)
Definition program (su : Setup) (fl : Flags) (create_ok : bool) (pos start : Z)
    (script : list Iter) : list (SetupEvent + Event Msg) * Status :=
  match NewReceiver su with
  | (tr, Ok (p, d)) =>
      let '(tr', s) := @main Msg D _ (parsers p) _ fl create_ok d pos start script in
      (map inl tr ++ map inr tr', s)
  | (tr, _) => (map inl tr, Exited 1)
  end.

(** The tuning calls of a start-up trace. *)
Definition tuning_of (e : SetupEvent) : option SetupEvent :=
  match e with
  | SuSetCenterFreq _ | SuSetSampleRate _ | SuSetGainMode _ => Some e
  | _ => None
  end.

Definition tunings (tr : list SetupEvent) : list SetupEvent := omap tuning_of tr.

(** The events of [main] and [Run] in a trace of the program. *)
Definition run_events (tr : list (SetupEvent + Event Msg)) : list (Event Msg) :=
  omap (fun e => match e with inr ev => Some ev | inl _ => None end) tr.

Definition setup_events (tr : list (SetupEvent + Event Msg)) : list SetupEvent :=
  omap (fun e => match e with inl ev => Some ev | inr _ => None end) tr.

End Startup.

(** A start-up to try things on: lower-casing of the ASCII letters, the
    bench decoder for both protocols. *)
Module StartupBench.

Import Bench.

Definition lower (a : Ascii.ascii) : Ascii.ascii :=
  let n := Ascii.nat_of_ascii a in
  if (65 <=? n) && (n <=? 90) then Ascii.ascii_of_nat (n + 32) else a.

Fixpoint ascii_lower (s : string) : string :=
  match s with
  | EmptyString => EmptyString
  | String a rest => String (lower a) (ascii_lower rest)
  end.

Definition new_decoder (p : Protocol) (symbolLength : Z) (fastMag : bool) : D := d0.

Definition sample_rate (d : D) : Z := 2392064.

Definition parsers (p : Protocol) : Parser Msg := bench_parser.

Definition setup (type : string) (quiet : bool) (visited : list string) (ok : bool) : Setup :=
  {| msgType := type; symbolLength := 73; fastMag := false; quiet_ := quiet;
     visited := visited; connect_ok := ok; centerFreq := 920299072 |}.

End StartupBench.

(** More flags and iterations to try the loop on. *)
Module MoreBench.

Import Bench.

(** Plain text with a time limit; plain text without capture; XML. *)
Definition limited : Flags :=
  {| single := false; sampleFilename := "raw.bin"; timeLimit := 5; encoder := None;
     meterID := ∅; meterType := ∅; cpuprofile := "" |}.
Definition no_capture : Flags := flags false "/dev/null" None ∅ ∅.
Definition xml : Flags := flags false "raw.bin" (Some XmlEncoder) ∅ ∅.

(** An iteration that finds the timer fired, seven ticks after the start;
    were it to read, it would get noise. *)
Definition timed_out : Iter :=
  {| it_sigint := false; it_timer := true; it_pick := false; it_clock := 7;
     it_read := ReadOk noise; it_now := fun k => Z.of_nat k;
     it_fprintln := fun _ => true; it_encode := fun _ => true; it_write := true |}.

(** An iteration in which the sample file refuses the write. *)
Definition reading_disk_full (data : list byte) : Iter :=
  {| it_sigint := false; it_timer := false; it_pick := false; it_clock := 0;
     it_read := ReadOk data; it_now := fun k => Z.of_nat k;
     it_fprintln := fun _ => true; it_encode := fun _ => true; it_write := false |}.

(** The state after one block holding [data] was read, matched and its
    four bytes of samples written. *)
Definition captured (data : list byte) : State D :=
  {| block := data; dec := (fst d0, data); sample_pos := 4 |}.

End MoreBench.

(** ** The loop on a sample file of any kind

    [sampleFile] is whatever [-samplefile] names: a regular file, but also
    a device or a pipe.  Here the file is an object of the outside world
    with answers of its own: [Seek] is the value that
    [sampleFile.Seek(0, os.SEEK_CUR)] returns (line 154; the error
    returned with it is discarded), [Write] what a successful
    [sampleFile.Write] (line 186) makes of the file. *)

Class SampleFile (F : Type) := {
  Seek : F -> Z;
  Write : F -> list byte -> F
}.

Section AnyFile.

Context {Msg D F : Type} `{!Message Msg, !Parser Msg, !Decoder D, !SampleFile F}.

Notation "'do' x <- m ; k" := (bind m (fun x => k))
  (at level 10, x name, m at level 100, k at level 200).
Notation "'run' m ; k" := (bind m (fun _ => k))
  (at level 10, m at level 100, k at level 200).

Variable fl : Flags.

(** The loop's own variables: the reused sample block, the decoder, and
    the sample file. *)
Record StateOn := mkStateOn { block_on : list byte; dec_on : D; file : F }.

(** Lines 152-156. *)
Definition log_message_on (it : Iter) (st : StateOn) (k : nat) (scm : Msg)
    : LogMessage Msg :=
  {| Time := it_now it k;
     Offset := Seek (file st);
     Length := Go.shl1 (BufferLength (Cfg (dec_on st)));
     Message_ := scm |}.

(** Lines 137-181, for one candidate. *)
Definition candidate_on (it : Iter) (st : StateOn) (k : nat) (pkt : Packet)
    : M Msg bool :=
  match Parse pkt with
  | None => ret false
  | Some scm =>
      if skip_id fl scm then ret false
      else if skip_type fl scm then ret false
      else run output fl it k (log_message_on it st k scm) ; ret true
  end.

(** Lines 136-182. *)
Fixpoint candidates_on (it : Iter) (st : StateOn) (k : nat) (pkts : list Packet)
    (pktFound : bool) : M Msg bool :=
  match pkts with
  | [] => ret pktFound
  | pkt :: rest =>
      do found <- candidate_on it st k pkt ;
      if found then
        if single fl then ret true
        else candidates_on it st (S k) rest true
      else candidates_on it st (S k) rest pktFound
  end.

(** Lines 184-190. *)
Definition write_samples_on (it : Iter) (st : StateOn) : M Msg StateOn :=
  if capture fl then
    run emit (EvSampleWrite (IQ (dec_on st)) (it_write it)) ;
    if it_write it
    then ret {| block_on := block_on st; dec_on := dec_on st;
                file := Write (file st) (IQ (dec_on st)) |}
    else fatal ErrWritingSamples
  else ret st.

(** Lines 122-195: one turn of the [for]. *)
Definition iteration_on (start : Z) (it : Iter) (st : StateOn) : M Msg (option StateOn) :=
  match select fl it with
  | CaseSigint => ret None
  | CaseTLimit => run emit (EvTimeLimit (it_clock it - start)%Z) ; ret None
  | CaseDefault =>
      match it_read it with
      | ReadErr => run emit (EvRead false) ; fatal ErrReadingSamples
      | ReadOk data =>
          run emit (EvRead true) ;
          let blk := Go.fill (block_on st) data in
          let '(d', pkts) := Decode (dec_on st) blk in
          let st1 := {| block_on := blk; dec_on := d'; file := file st |} in
          do pktFound <- candidates_on it st1 0 pkts false ;
          if pktFound then
            do st2 <- write_samples_on it st1 ;
            if single fl then ret None else ret (Some st2)
          else ret (Some st1)
      end
  end.

Inductive OutcomeOn := ReturnedOn | RunningOn (st : StateOn).

Fixpoint loop_on (start : Z) (script : list Iter) (st : StateOn) : M Msg OutcomeOn :=
  match script with
  | [] => ret (RunningOn st)
  | it :: rest =>
      do s <- iteration_on start it st ;
      match s with
      | None => ret ReturnedOn
      | Some st' => loop_on start rest st'
      end
  end.

(** [Run] with [sampleFile] being [f]. *)
Definition Run_on (d : D) (f : F) (start : Z) (script : list Iter) : M Msg OutcomeOn :=
  match Go.make (BlockSize2 (Cfg d)) with
  | None => ([], Panic)
  | Some blk => loop_on start script {| block_on := blk; dec_on := d; file := f |}
  end.

(** What the loop of section [Receiver] knows of a state: of the file,
    the position [Seek] reports. *)
Definition regular (st : StateOn) : State D :=
  {| block := block_on st; dec := dec_on st; sample_pos := Seek (file st) |}.

Definition regular_outcome (o : OutcomeOn) : Outcome D :=
  match o with
  | ReturnedOn => Returned
  | RunningOn st => Running (regular st)
  end.

End AnyFile.

Arguments StateOn : clear implicits.
Arguments OutcomeOn : clear implicits.

Section Replay.

Context {Msg : Type}.

(** The result of a computation seen through [g]. *)
Definition through {A B} (g : A -> B) (m : M Msg A) : M Msg B :=
  (m.1, match m.2 with Ok a => Ok (g a) | Exit1 => Exit1 | Panic => Panic end).

(** A trace replayed block by block.  [p] is the number of the byte the
    next write on the capture file appends at (the bytes written so far,
    counted from the position the loop started with), [es] are the
    entries composed since the last read, [appended] tells whether the
    samples of the block were written already.  The trace passes when
    every write on the capture file is the only one of its block, comes
    after an entry of the block and after the last of them, and every
    entry of the block records [p], the place the write appends at, as
    its Offset. *)
Fixpoint appends_at_offsets (p : Z) (es : list (LogMessage Msg)) (appended : bool)
    (tr : list (Event Msg)) : bool :=
  match tr with
  | [] => true
  | EvRead _ :: tr' => appends_at_offsets p [] false tr'
  | EvSampleWrite iq _ :: tr' =>
      negb appended && (0 <? length es)
      && forallb (fun msg => (Offset msg =? p)%Z) es
      && appends_at_offsets (p + Z.of_nat (length iq))%Z es true tr'
  | e :: tr' =>
      match entry_of e with
      | Some msg => negb appended && appends_at_offsets p (es ++ [msg]) appended tr'
      | None => appends_at_offsets p es appended tr'
      end
  end.

End Replay.

(** Two sample files for the bench. *)
Module FileBench.

Import Bench.

(** A regular file, known by its write position. *)
#[export] Instance regular_file : SampleFile Z :=
  {| Seek := fun p => p; Write := fun p iq => (p + Z.of_nat (length iq))%Z |}.

(** A character device such as /dev/zero: it takes what is written, and
    the position it reports is 0 throughout. *)
Inductive Device := TheDevice.

#[export] Instance device : SampleFile Device :=
  {| Seek := fun _ => 0%Z; Write := fun f _ => f |}.

(** Plain text with capture to the device. *)
Definition to_device : Flags := flags false "/dev/zero" None ∅ ∅.

(** A structured encoder that takes the first record of a block and
    fails on the second. *)
Definition reading_second_encode_fails (data : list byte) : Iter :=
  {| it_sigint := false; it_timer := false; it_pick := false; it_clock := 0;
     it_read := ReadOk data; it_now := fun k => Z.of_nat k;
     it_fprintln := fun _ => true;
     it_encode := fun k => match k with 0 => true | _ => false end;
     it_write := true |}.

End FileBench.

(** ** Properties *)

Section Properties.

Context {Msg D : Type} `{!Message Msg, !Parser Msg, !Decoder D}.

Implicit Types (fl : Flags) (it : Iter) (st : State D) (k : nat).
Implicit Types (pkt : Packet) (pkts : list Packet) (scm : Msg).
Implicit Types (tr : list (Event Msg)) (msg : LogMessage Msg).

(** An event that is none of those listed is not in the list. *)
Ltac absent He :=
  repeat (apply elem_of_cons in He as [He | He]; [discriminate|]);
  apply elem_of_nil in He; contradiction.

(** The cases of [output]: the encoder at hand and its answer, or the
    plain-text line with or without the offset. *)
Ltac output_cases fl it k :=
  unfold output; destruct (encoder fl) as [[]|]; simpl;
  [destruct (it_encode it k) | destruct (it_encode it k) | destruct (String.eqb _ _)].

(** *** Traces and the monad *)

Lemma log_entries_app tr1 tr2 :
  log_entries (tr1 ++ tr2) = log_entries tr1 ++ log_entries tr2.
Proof. apply omap_app. Qed.

Lemma sample_writes_app tr1 tr2 :
  sample_writes (tr1 ++ tr2) = sample_writes tr1 ++ sample_writes tr2.
Proof. apply omap_app. Qed.

Lemma reads_app tr1 tr2 : reads (tr1 ++ tr2) = reads tr1 ++ reads tr2.
Proof. apply omap_app. Qed.

Lemma closes_app tr1 tr2 : closes (tr1 ++ tr2) = closes tr1 ++ closes tr2.
Proof. apply omap_app. Qed.

Lemma bind_ret_l {A B} (a : A) (f : A -> M Msg B) : bind (ret a) f = f a.
Proof. unfold bind, ret. destruct (f a) as [tr r]. reflexivity. Qed.

Lemma bind_ret_l_trace {A B} tr (a : A) (f : A -> M Msg B) :
  bind (tr, Ok a) f = (tr ++ (f a).1, (f a).2).
Proof. unfold bind. destruct (f a). reflexivity. Qed.

Lemma bind_trace {A B} (m : M Msg A) (f : A -> M Msg B) :
  (bind m f).1 = m.1 ++ match m.2 with Ok a => (f a).1 | _ => [] end.
Proof.
  destruct m as [tr [a| |]]; simpl; rewrite ?app_nil_r; try reflexivity.
  destruct (f a). reflexivity.
Qed.

Lemma bind_result {A B} (m : M Msg A) (f : A -> M Msg B) :
  (bind m f).2 = match m.2 with Ok a => (f a).2 | Exit1 => Exit1 | Panic => Panic end.
Proof.
  destruct m as [tr [a| |]]; simpl; try reflexivity.
  destruct (f a). reflexivity.
Qed.

(** *** The filter *)

Lemma skip_false_iff (m : gmap N bool) (x : N) :
  (0 <? Go.len m) && negb (Go.index m (Go.uint x)) = false <->
  m = ∅ \/ m !! x = Some true.
Proof.
  unfold Go.len, Go.index, Go.uint. rewrite andb_false_iff, negb_false_iff.
  rewrite Nat.ltb_ge. split.
  - intros [Hs | Hi].
    + left. apply map_size_empty_iff. lia.
    + right. destruct (m !! x) as [[]|]; simpl in Hi; congruence.
  - intros [-> | Hx].
    + left. rewrite map_size_empty. lia.
    + right. rewrite Hx. reflexivity.
Qed.

Lemma accept_iff fl scm :
  accept fl scm = true <->
  (meterID fl = ∅ \/ meterID fl !! MeterID scm = Some true) /\
  (meterType fl = ∅ \/ meterType fl !! MeterType scm = Some true).
Proof.
  unfold accept, skip_id, skip_type.
  rewrite andb_true_iff, !negb_true_iff, !skip_false_iff. reflexivity.
Qed.

(** *** One candidate *)

Lemma output_entries fl it k msg :
  log_entries (output fl it k msg).1 = [msg].
Proof.
  output_cases fl it k; reflexivity.
Qed.

Lemma output_no_write fl it k msg :
  sample_writes (output fl it k msg).1 = [].
Proof.
  output_cases fl it k; reflexivity.
Qed.

Lemma output_no_read fl it k msg :
  reads (output fl it k msg).1 = [].
Proof.
  output_cases fl it k; reflexivity.
Qed.

Lemma output_result fl it k msg :
  (output fl it k msg).2 =
  match encoder fl with
  | Some _ => if it_encode it k then Ok tt else Exit1
  | None => Ok tt
  end.
Proof.
  output_cases fl it k; reflexivity.
Qed.

Lemma candidate_rejected fl it st k pkt :
  accepted fl pkt = None -> candidate fl it st k pkt = ret false.
Proof.
  unfold accepted, candidate, accept. destruct (Parse pkt) as [scm|]; [|done].
  destruct (skip_id fl scm); [done|]. destruct (skip_type fl scm); done.
Qed.

Lemma candidate_accepted fl it st k pkt scm :
  accepted fl pkt = Some scm ->
  candidate fl it st k pkt =
  bind (output fl it k (log_message it st k scm)) (fun _ => ret true).
Proof.
  unfold accepted, candidate, accept. destruct (Parse pkt) as [scm'|]; [|done].
  destruct (skip_id fl scm'); [done|]. destruct (skip_type fl scm'); [done|].
  simpl. congruence.
Qed.

Lemma candidate_accepted_trace fl it st k pkt scm :
  accepted fl pkt = Some scm ->
  (candidate fl it st k pkt).1 = (output fl it k (log_message it st k scm)).1.
Proof.
  intros Ha. rewrite (candidate_accepted _ _ _ _ _ _ Ha).
  destruct (output fl it k (log_message it st k scm)) as [tr [[]| |]]; simpl;
    rewrite ?app_nil_r; reflexivity.
Qed.

(** *** The candidates of one block *)

Lemma candidates_cons_rejected fl it st k pkt rest pf :
  accepted fl pkt = None ->
  candidates fl it st k (pkt :: rest) pf = candidates fl it st (S k) rest pf.
Proof.
  intros Ha. simpl. rewrite (candidate_rejected _ _ _ _ _ Ha).
  rewrite bind_ret_l. reflexivity.
Qed.

Lemma candidates_cons_accepted fl it st k pkt rest pf scm :
  accepted fl pkt = Some scm ->
  candidates fl it st k (pkt :: rest) pf =
  bind (output fl it k (log_message it st k scm))
    (fun _ => if single fl then ret true else candidates fl it st (S k) rest true).
Proof.
  intros Ha. simpl. rewrite (candidate_accepted _ _ _ _ _ _ Ha).
  unfold bind at 1 2 3.
  destruct (output fl it k (log_message it st k scm)) as [tr [[]| |]]; simpl;
    try reflexivity.
  rewrite app_nil_r. reflexivity.
Qed.

Lemma candidates_quiet fl it st k pkts pf :
  accepted_from fl k pkts = [] -> candidates fl it st k pkts pf = ret pf.
Proof.
  revert k. induction pkts as [|pkt rest IH]; intros k Hq; [reflexivity|].
  simpl in Hq. destruct (accepted fl pkt) eqn:Ha; [discriminate|].
  rewrite (candidates_cons_rejected _ _ _ _ _ _ _ Ha). auto.
Qed.

(** In single mode the loop over the candidates ends with the first
    accepted one. *)
Lemma candidates_single fl it st k pkts pf j scm more :
  single fl = true ->
  accepted_from fl k pkts = (j, scm) :: more ->
  candidates fl it st k pkts pf =
  bind (output fl it j (log_message it st j scm)) (fun _ => ret true).
Proof.
  intros Hs. revert k. induction pkts as [|pkt rest IH]; intros k Hq; [discriminate|].
  simpl in Hq. destruct (accepted fl pkt) as [scm'|] eqn:Ha.
  - injection Hq as -> -> _.
    rewrite (candidates_cons_accepted _ _ _ _ _ _ _ _ Ha), Hs. reflexivity.
  - rewrite (candidates_cons_rejected _ _ _ _ _ _ _ Ha). auto.
Qed.

Lemma candidates_no_write fl it st k pkts pf :
  sample_writes (candidates fl it st k pkts pf).1 = [].
Proof.
  revert k pf. induction pkts as [|pkt rest IH]; intros k pf; [reflexivity|].
  destruct (accepted fl pkt) as [scm|] eqn:Ha.
  - rewrite (candidates_cons_accepted _ _ _ _ _ _ _ _ Ha).
    pose proof (output_no_write fl it k (log_message it st k scm)) as Hw.
    destruct (output fl it k (log_message it st k scm)) as [tr [[]| |]];
      simpl in *; try assumption.
    destruct (single fl).
    + simpl. rewrite app_nil_r. assumption.
    + specialize (IH (S k) true).
      destruct (candidates fl it st (S k) rest true) as [tr' r']. simpl in *.
      rewrite sample_writes_app, Hw, IH. reflexivity.
  - rewrite (candidates_cons_rejected _ _ _ _ _ _ _ Ha). apply IH.
Qed.

Lemma candidates_no_read fl it st k pkts pf :
  reads (candidates fl it st k pkts pf).1 = [].
Proof.
  revert k pf. induction pkts as [|pkt rest IH]; intros k pf; [reflexivity|].
  destruct (accepted fl pkt) as [scm|] eqn:Ha.
  - rewrite (candidates_cons_accepted _ _ _ _ _ _ _ _ Ha).
    pose proof (output_no_read fl it k (log_message it st k scm)) as Hw.
    destruct (output fl it k (log_message it st k scm)) as [tr [[]| |]];
      simpl in *; try assumption.
    destruct (single fl).
    + simpl. rewrite app_nil_r. assumption.
    + specialize (IH (S k) true).
      destruct (candidates fl it st (S k) rest true) as [tr' r']. simpl in *.
      rewrite reads_app, Hw, IH. reflexivity.
  - rewrite (candidates_cons_rejected _ _ _ _ _ _ _ Ha). apply IH.
Qed.

(** Every entry of a block carries the write position the capture file
    had when the block was read. *)
Lemma candidates_offsets fl it st k pkts pf :
  Forall (fun msg => Offset msg = sample_pos st)
    (log_entries (candidates fl it st k pkts pf).1).
Proof.
  revert k pf. induction pkts as [|pkt rest IH]; intros k pf; [constructor|].
  destruct (accepted fl pkt) as [scm|] eqn:Ha.
  - rewrite (candidates_cons_accepted _ _ _ _ _ _ _ _ Ha).
    pose proof (output_entries fl it k (log_message it st k scm)) as Hw.
    destruct (output fl it k (log_message it st k scm)) as [tr [[]| |]];
      simpl in *; rewrite ?Hw; try (repeat constructor).
    destruct (single fl).
    + simpl. rewrite app_nil_r, Hw. repeat constructor.
    + specialize (IH (S k) true).
      destruct (candidates fl it st (S k) rest true) as [tr' r']. simpl in *.
      rewrite log_entries_app, Hw. constructor; [reflexivity | assumption].
  - rewrite (candidates_cons_rejected _ _ _ _ _ _ _ Ha). apply IH.
Qed.

(** The loop over the candidates never panics, and when it comes to its
    end, [pktFound] tells whether a message was accepted. *)
Lemma candidates_result fl it st k pkts pf :
  (candidates fl it st k pkts pf).2 = Exit1 \/
  (candidates fl it st k pkts pf).2 =
    Ok (pf || match accepted_from fl k pkts with [] => false | _ :: _ => true end).
Proof.
  revert k pf. induction pkts as [|pkt rest IH]; intros k pf.
  - right. simpl. rewrite orb_false_r. reflexivity.
  - simpl accepted_from. destruct (accepted fl pkt) as [scm|] eqn:Ha.
    + rewrite (candidates_cons_accepted _ _ _ _ _ _ _ _ Ha).
      pose proof (output_result fl it k (log_message it st k scm)) as Hr.
      destruct (output fl it k (log_message it st k scm)) as [tr [[]| |]];
        simpl in *.
      * rewrite orb_true_r. destruct (single fl); [right; reflexivity|].
        specialize (IH (S k) true).
        destruct (candidates fl it st (S k) rest true) as [tr' r']. simpl in *.
        exact IH.
      * left. reflexivity.
      * destruct (encoder fl); [destruct (it_encode it k)|]; discriminate.
    + rewrite (candidates_cons_rejected _ _ _ _ _ _ _ Ha). apply IH.
Qed.

(** Without an encoder, or with one that never fails, the loop over the
    candidates comes to its end. *)
Lemma candidates_survive fl it st k pkts pf :
  encoder fl = None \/ (forall j, it_encode it j = true) ->
  (candidates fl it st k pkts pf).2 <> Exit1.
Proof.
  intros Hok. revert k pf. induction pkts as [|pkt rest IH]; intros k pf; [discriminate|].
  destruct (accepted fl pkt) as [scm|] eqn:Ha.
  - rewrite (candidates_cons_accepted _ _ _ _ _ _ _ _ Ha), bind_result, output_result.
    assert (match encoder fl with
            | Some _ => if it_encode it k then Ok tt else Exit1
            | None => Ok tt
            end = Ok tt) as ->.
    { destruct Hok as [-> | Hok]; [reflexivity|]. rewrite Hok.
      destruct (encoder fl); reflexivity. }
    destruct (single fl); [discriminate | apply IH].
  - rewrite (candidates_cons_rejected _ _ _ _ _ _ _ Ha). apply IH.
Qed.

(** In normal mode, a loop over the candidates that comes to its end has
    written one entry for each accepted message, in order. *)
Lemma candidates_all_entries fl it st k pkts pf :
  single fl = false ->
  (candidates fl it st k pkts pf).2 <> Exit1 ->
  log_entries (candidates fl it st k pkts pf).1 =
  map (fun p => log_message it st p.1 p.2) (accepted_from fl k pkts).
Proof.
  intros Hs. revert k pf. induction pkts as [|pkt rest IH]; intros k pf; [reflexivity|].
  simpl accepted_from. destruct (accepted fl pkt) as [scm|] eqn:Ha.
  - rewrite (candidates_cons_accepted _ _ _ _ _ _ _ _ Ha), Hs.
    pose proof (output_entries fl it k (log_message it st k scm)) as Hw.
    pose proof (output_result fl it k (log_message it st k scm)) as Hr.
    destruct (output fl it k (log_message it st k scm)) as [tr [[]| |]];
      simpl in *.
    + specialize (IH (S k) true).
      destruct (candidates fl it st (S k) rest true) as [tr' r']. simpl in *.
      intros Hne. rewrite log_entries_app, Hw, (IH Hne). reflexivity.
    + congruence.
    + destruct (encoder fl); [destruct (it_encode it k)|]; discriminate.
  - rewrite (candidates_cons_rejected _ _ _ _ _ _ _ Ha). apply IH.
Qed.

(** *** One iteration *)

Lemma next_block_inv fl it st st1 pkts :
  next_block fl it st = Some (st1, pkts) ->
  exists data,
    select fl it = CaseDefault /\ it_read it = ReadOk data /\
    Decode (dec st) (Go.fill (block st) data) = (dec st1, pkts) /\
    st1 = {| block := Go.fill (block st) data; dec := dec st1;
             sample_pos := sample_pos st |}.
Proof.
  unfold next_block. destruct (select fl it); try discriminate.
  destruct (it_read it) as [data|]; try discriminate.
  destruct (Decode (dec st) (Go.fill (block st) data)) as [d' p] eqn:Hd.
  intros [= <- <-]. exists data. simpl. auto.
Qed.

Lemma iteration_block fl start it st st1 pkts :
  next_block fl it st = Some (st1, pkts) ->
  iteration fl start it st =
  bind (emit (EvRead true)) (fun _ =>
    bind (candidates fl it st1 0 pkts false) (fun pktFound =>
      if pktFound then
        bind (write_samples fl it st1) (fun st2 =>
          if single fl then ret None else ret (Some st2))
      else ret (Some st1))).
Proof.
  intros Hn. destruct (next_block_inv _ _ _ _ _ Hn) as (data & Hs & Hr & Hd & Hst).
  unfold iteration. rewrite Hs, Hr, Hd, <- Hst. reflexivity.
Qed.

Lemma write_samples_writes fl it st :
  sample_writes (write_samples (Msg := Msg) fl it st).1 =
  if capture fl then [IQ (dec st)] else [].
Proof.
  unfold write_samples. destruct (capture fl); [|reflexivity].
  simpl. destruct (it_write it); reflexivity.
Qed.

Lemma write_samples_entries fl it st :
  log_entries (write_samples (Msg := Msg) fl it st).1 = [].
Proof.
  unfold write_samples. destruct (capture fl); [|reflexivity].
  simpl. destruct (it_write it); reflexivity.
Qed.

Lemma write_samples_no_read fl it st :
  reads (write_samples (Msg := Msg) fl it st).1 = [].
Proof.
  unfold write_samples. destruct (capture fl); [|reflexivity].
  simpl. destruct (it_write it); reflexivity.
Qed.

(** *** The claims about one candidate and one block *)

(** C1. A parsed message is accepted (its Log Entry is handed to the log
    sink) if and only if the meter-ID set is empty or holds the message's
    identifier, and the meter-type set is empty or holds the message's
    type.  An empty set switches its dimension off. *)
Theorem filter_accepts_iff fl it st k pkt scm :
  Parse pkt = Some scm ->
  log_entries (candidate fl it st k pkt).1 = [log_message it st k scm] <->
  (meterID fl = ∅ \/ meterID fl !! MeterID scm = Some true) /\
  (meterType fl = ∅ \/ meterType fl !! MeterType scm = Some true).
Proof.
  intros Hp. rewrite <- accept_iff. split.
  - intros He. destruct (accept fl scm) eqn:Ha; [reflexivity|].
    assert (accepted fl pkt = None) as Hn by (unfold accepted; rewrite Hp, Ha; reflexivity).
    rewrite (candidate_rejected _ it st k _ Hn) in He. discriminate.
  - intros Ha.
    assert (accepted fl pkt = Some scm) as Hs by (unfold accepted; rewrite Hp, Ha; reflexivity).
    rewrite (candidate_accepted_trace _ it st k _ _ Hs). apply output_entries.
Qed.

(** C2, as the code has it. With raw-sample capture on, a block causes at
    most one write on the capture file: none when no message of the block
    was accepted; exactly one (of the decoder's raw samples) when one or
    more were and the loop over the candidates came to its end; and none
    when a failing [Encode] ended the process inside that loop, whatever
    was accepted before. *)
Theorem capture_write_once fl start it st st1 pkts :
  capture fl = true ->
  next_block fl it st = Some (st1, pkts) ->
  let tr := (iteration fl start it st).1 in
  length (sample_writes tr) <= 1 /\
  (accepted_from fl 0 pkts = [] -> sample_writes tr = []) /\
  (accepted_from fl 0 pkts <> [] ->
   (candidates fl it st1 0 pkts false).2 <> Exit1 ->
   sample_writes tr = [IQ (dec st1)]) /\
  ((candidates fl it st1 0 pkts false).2 = Exit1 -> sample_writes tr = []).
Proof.
  intros Hc Hn. rewrite (iteration_block _ start _ _ _ _ Hn).
  pose proof (candidates_no_write fl it st1 0 pkts false) as Hw.
  pose proof (candidates_result fl it st1 0 pkts false) as Hr.
  pose proof (write_samples_writes fl it st1) as Hs.
  rewrite Hc in Hs.
  destruct (candidates fl it st1 0 pkts false) as [trc r]. simpl in Hw, Hr.
  destruct Hr as [-> | ->].
  - simpl. rewrite Hw. simpl. split; [lia|]. split; [reflexivity|].
    split; [congruence | reflexivity].
  - destruct (accepted_from fl 0 pkts) as [|p more]; simpl.
    + rewrite app_nil_r, Hw. simpl. split; [lia|]. split; [reflexivity|].
      split; [congruence | reflexivity].
    + destruct (write_samples fl it st1) as [trw [st2| |]]; simpl in *;
        [destruct (single fl); simpl | |];
        rewrite ?app_nil_r, ?sample_writes_app, Hw, ?Hs; simpl;
        (split; [lia|]); (split; [discriminate|]);
        (split; [reflexivity | discriminate]).
Qed.

(** C7. A candidate that does not parse is skipped without a trace.  A
    block whose candidates all fail to parse gives no Log Entry and no
    write on the capture file, and the loop goes round again. *)
Theorem parse_failures_are_silent fl start it st st1 pkts rest :
  next_block fl it st = Some (st1, pkts) ->
  Forall (fun pkt => Parse pkt = None) pkts ->
  (forall st' k pkt more pf,
     Parse pkt = None ->
     candidate fl it st' k pkt = ([], Ok false) /\
     candidates fl it st' k (pkt :: more) pf = candidates fl it st' (S k) more pf) /\
  iteration fl start it st = ([EvRead true], Ok (Some st1)) /\
  log_entries (iteration fl start it st).1 = [] /\
  sample_writes (iteration fl start it st).1 = [] /\
  loop fl start (it :: rest) st =
    bind (emit (EvRead true)) (fun _ => loop fl start rest st1).
Proof.
  intros Hn Hall.
  assert (forall pkt, Parse pkt = None -> accepted fl pkt = None) as Hrej.
  { intros pkt Hp. unfold accepted. rewrite Hp. reflexivity. }
  assert (forall k, accepted_from fl k pkts = []) as Hq.
  { clear Hn. induction Hall as [|pkt more Hp _ IH]; intros k; [reflexivity|].
    simpl. rewrite (Hrej _ Hp). apply IH. }
  assert (iteration fl start it st = ([EvRead true], Ok (Some st1))) as Hit.
  { rewrite (iteration_block _ start _ _ _ _ Hn).
    rewrite (candidates_quiet _ _ _ _ _ _ (Hq 0)). reflexivity. }
  split; [|split; [|split; [|split]]].
  - intros st' k pkt more pf Hp. split.
    + apply (candidate_rejected _ _ _ _ _ (Hrej _ Hp)).
    + apply (candidates_cons_rejected _ _ _ _ _ _ _ (Hrej _ Hp)).
  - exact Hit.
  - rewrite Hit. reflexivity.
  - rewrite Hit. reflexivity.
  - simpl. rewrite Hit. simpl. destruct (loop fl start rest st1). reflexivity.
Qed.

(** *** The shape of an iteration *)

Lemma write_samples_result fl it st :
  (write_samples (Msg := Msg) fl it st).2 =
  if capture fl && negb (it_write it) then Exit1
  else Ok {| block := block st; dec := dec st;
             sample_pos := (sample_pos st + written (write_samples (Msg := Msg) fl it st).1)%Z |}.
Proof.
  unfold write_samples, written. destruct (capture fl); simpl.
  - destruct (it_write it); simpl; [|reflexivity].
    rewrite Z.add_0_r. reflexivity.
  - rewrite Z.add_0_r. destruct st. reflexivity.
Qed.

Lemma iteration_block_trace fl start it st st1 pkts :
  next_block fl it st = Some (st1, pkts) ->
  (iteration fl start it st).1 =
  EvRead true :: (candidates fl it st1 0 pkts false).1 ++
    match (candidates fl it st1 0 pkts false).2 with
    | Ok true => (write_samples fl it st1).1
    | _ => []
    end.
Proof.
  intros Hn. rewrite (iteration_block _ start _ _ _ _ Hn), !bind_trace. simpl.
  f_equal. f_equal.
  destruct ((candidates fl it st1 0 pkts false).2) as [[]| |]; try reflexivity.
  rewrite bind_trace.
  destruct ((write_samples fl it st1).2); [destruct (single fl)| |]; simpl;
    rewrite app_nil_r; reflexivity.
Qed.

Lemma iteration_block_result fl start it st st1 pkts :
  next_block fl it st = Some (st1, pkts) ->
  (iteration fl start it st).2 =
  match (candidates fl it st1 0 pkts false).2 with
  | Ok true =>
      match (write_samples (Msg := Msg) fl it st1).2 with
      | Ok st2 => if single fl then Ok None else Ok (Some st2)
      | Exit1 => Exit1
      | Panic => Panic
      end
  | Ok false => Ok (Some st1)
  | Exit1 => Exit1
  | Panic => Panic
  end.
Proof.
  intros Hn. rewrite (iteration_block _ start _ _ _ _ Hn), !bind_result. simpl.
  destruct ((candidates fl it st1 0 pkts false).2) as [[]| |]; try reflexivity.
  rewrite bind_result.
  destruct ((write_samples fl it st1).2); [destruct (single fl)| |]; reflexivity.
Qed.

(** An iteration that reads no block: a signal, the time limit, or a
    failed read. *)
Lemma iteration_no_block fl start it st :
  next_block fl it st = None ->
  iteration fl start it st = ([], Ok None) \/
  iteration fl start it st = ([EvTimeLimit (it_clock it - start)%Z], Ok None) \/
  (select fl it = CaseDefault /\ it_read it = ReadErr /\
   iteration fl start it st = ([EvRead false; EvFatal ErrReadingSamples], Exit1)).
Proof.
  unfold next_block, iteration. destruct (select fl it); auto.
  destruct (it_read it) as [data|]; auto.
  destruct (Decode (dec st) (Go.fill (block st) data)). discriminate.
Qed.

(** *** The write position along a trace *)

Lemma written_app tr1 tr2 : (written (tr1 ++ tr2) = written tr1 + written tr2)%Z.
Proof.
  unfold written. rewrite sample_writes_app.
  induction (sample_writes tr1) as [|iq l IH]; simpl; [reflexivity|].
  rewrite IH. lia.
Qed.

Lemma written_nonneg tr : (0 <= written tr)%Z.
Proof.
  unfold written. induction (sample_writes tr) as [|iq l IH]; simpl; lia.
Qed.

Lemma written_no_write tr : sample_writes tr = [] -> written tr = 0%Z.
Proof. unfold written. intros ->. reflexivity. Qed.

Lemma positions_app p tr1 tr2 :
  positions p (tr1 ++ tr2) = positions p tr1 ++ positions (p + written tr1) tr2.
Proof.
  revert p. induction tr1 as [|e tr1 IH]; intros p; simpl.
  - unfold written. simpl. rewrite Z.add_0_r. reflexivity.
  - destruct e as [ok|t ok|msg ok|iq ok|el|what|r]; simpl;
      try (rewrite IH; reflexivity).
    + destruct t; simpl; rewrite IH; reflexivity.
    + rewrite IH. unfold written. simpl. rewrite Z.add_assoc. reflexivity.
Qed.

Lemma positions_no_write p tr :
  sample_writes tr = [] ->
  positions p tr = map (fun msg => (msg, p)) (log_entries tr).
Proof.
  induction tr as [|e tr IH]; [reflexivity|].
  destruct e as [ok|t ok|msg ok|iq ok|el|what|r]; simpl; try exact IH.
  - destruct t; simpl; intros Hw; rewrite ?(IH Hw); reflexivity.
  - intros Hw. rewrite (IH Hw). reflexivity.
  - discriminate.
Qed.

Lemma positions_no_entry p tr : log_entries tr = [] -> positions p tr = [].
Proof.
  revert p. induction tr as [|e tr IH]; intros p; [reflexivity|].
  destruct e as [ok|t ok|msg ok|iq ok|el|what|r]; simpl; try apply IH.
  - destruct t; simpl; try discriminate. apply IH.
  - discriminate.
Qed.

(** What one iteration does to the entries and to the capture file. *)
Lemma iteration_summary fl start it st :
  Forall (fun msg => Offset msg = sample_pos st)
    (log_entries (iteration fl start it st).1) /\
  positions (sample_pos st) (iteration fl start it st).1 =
    map (fun msg => (msg, sample_pos st)) (log_entries (iteration fl start it st).1) /\
  length (sample_writes (iteration fl start it st).1) <= 1 /\
  (forall st', (iteration fl start it st).2 = Ok (Some st') ->
     sample_pos st' = (sample_pos st + written (iteration fl start it st).1)%Z).
Proof.
  destruct (next_block fl it st) as [[st1 pkts]|] eqn:Hn.
  - destruct (next_block_inv _ _ _ _ _ Hn) as (data & _ & _ & _ & Hst).
    assert (sample_pos st1 = sample_pos st) as Hpos by (rewrite Hst; reflexivity).
    rewrite (iteration_block_trace _ start _ _ _ _ Hn).
    rewrite (iteration_block_result _ start _ _ _ _ Hn).
    pose proof (candidates_offsets fl it st1 0 pkts false) as Ho.
    pose proof (candidates_no_write fl it st1 0 pkts false) as Hw.
    pose proof (write_samples_entries fl it st1) as He.
    pose proof (write_samples_writes fl it st1) as Hs.
    pose proof (write_samples_result fl it st1) as Hr.
    rewrite Hpos in Ho.
    set (w := match (candidates fl it st1 0 pkts false).2 with
              | Ok true => (write_samples fl it st1).1
              | _ => []
              end).
    assert (log_entries w = []) as Hwe.
    { unfold w. destruct ((candidates fl it st1 0 pkts false).2) as [[]| |]; auto. }
    assert (length (sample_writes w) <= 1) as Hwl.
    { unfold w. destruct ((candidates fl it st1 0 pkts false).2) as [[]| |];
        simpl; try lia.
      rewrite Hs. destruct (capture fl); simpl; lia. }
    split; [|split; [|split]].
    + simpl. rewrite log_entries_app, Hwe, app_nil_r. exact Ho.
    + simpl. rewrite positions_app, log_entries_app, Hwe, app_nil_r.
      rewrite (positions_no_write _ _ Hw), (positions_no_entry _ _ Hwe), app_nil_r.
      reflexivity.
    + simpl. rewrite sample_writes_app, Hw. simpl. exact Hwl.
    + intros st'. unfold w.
      change (EvRead true :: ?t) with ([EvRead (Msg := Msg) true] ++ t).
      rewrite !written_app, (written_no_write _ Hw).
      assert (written [EvRead (Msg := Msg) true] = 0%Z) as -> by reflexivity.
      destruct ((candidates fl it st1 0 pkts false).2) as [[]| |]; try discriminate.
      * rewrite Hr. destruct (capture fl && negb (it_write it)); [discriminate|].
        destruct (single fl); [discriminate|]. intros [= <-]. simpl.
        rewrite Hpos. lia.
      * intros [= <-]. rewrite Hpos. unfold written. simpl. lia.
  - destruct (iteration_no_block fl start it st Hn) as [-> | [-> | (_ & _ & ->)]];
      simpl; (split; [constructor | split; [reflexivity | split; [lia | discriminate]]]).
Qed.

(** C10. In normal mode all the entries of a block record the same
    Offset, the write position the capture file had when the block was
    read: replayed along the block's trace the position is the same at
    every entry, and the block makes at most one write.  When the loop
    over the candidates comes to its end there is one such entry for
    each accepted message of the block. *)
Theorem block_entries_share_offset fl start it st st1 pkts :
  single fl = false ->
  next_block fl it st = Some (st1, pkts) ->
  let tr := (iteration fl start it st).1 in
  Forall (fun msg => Offset msg = sample_pos st) (log_entries tr) /\
  positions (sample_pos st) tr = map (fun msg => (msg, sample_pos st)) (log_entries tr) /\
  length (sample_writes tr) <= 1 /\
  ((candidates fl it st1 0 pkts false).2 <> Exit1 ->
   log_entries tr = map (fun p => log_message it st1 p.1 p.2) (accepted_from fl 0 pkts)).
Proof.
  intros Hs Hn. simpl.
  destruct (iteration_summary fl start it st) as (Ho & Hp & Hl & _).
  split; [exact Ho|]. split; [exact Hp|]. split; [exact Hl|]. intros Hne.
  rewrite (iteration_block_trace _ start _ _ _ _ Hn). simpl.
  rewrite log_entries_app, (candidates_all_entries _ _ _ _ _ _ Hs Hne).
  destruct ((candidates fl it st1 0 pkts false).2) as [[]| |];
    rewrite ?write_samples_entries; simpl; rewrite app_nil_r; reflexivity.
Qed.

(** *** The whole loop *)

Lemma loop_cons_trace fl start it rest st :
  (loop fl start (it :: rest) st).1 =
  (iteration fl start it st).1 ++
    match (iteration fl start it st).2 with
    | Ok (Some st') => (loop fl start rest st').1
    | _ => []
    end.
Proof.
  simpl. rewrite bind_trace.
  destruct ((iteration fl start it st).2) as [[st'|]| |]; reflexivity.
Qed.

Lemma loop_cons_result fl start it rest st :
  (loop fl start (it :: rest) st).2 =
  match (iteration fl start it st).2 with
  | Ok (Some st') => (loop fl start rest st').2
  | Ok None => Ok Returned
  | Exit1 => Exit1
  | Panic => Panic
  end.
Proof.
  simpl. rewrite bind_result.
  destruct ((iteration fl start it st).2) as [[st'|]| |]; reflexivity.
Qed.

(** Along the loop every entry records the replayed write position, which
    never moves back. *)
Lemma loop_offsets fl start script st :
  positions (sample_pos st) (loop fl start script st).1 =
    map (fun msg => (msg, Offset msg)) (log_entries (loop fl start script st).1) /\
  Forall (fun msg => (sample_pos st <= Offset msg)%Z)
    (log_entries (loop fl start script st).1) /\
  StronglySorted Z.le (map Offset (log_entries (loop fl start script st).1)).
Proof.
  revert st. induction script as [|it rest IH]; intros st.
  - simpl. repeat constructor.
  - rewrite loop_cons_trace.
    destruct (iteration_summary fl start it st) as (Ho & Hp & _ & Hnext).
    set (tri := (iteration fl start it st).1) in *.
    assert (map (fun msg => (msg, sample_pos st)) (log_entries tri) =
            map (fun msg => (msg, Offset msg)) (log_entries tri)) as Heq.
    { apply map_ext_Forall. eapply Forall_impl; [exact Ho|].
      intros msg ->. reflexivity. }
    assert (Forall (fun z => z = sample_pos st) (map Offset (log_entries tri))) as Hoz.
    { apply Forall_map. exact Ho. }
    assert (StronglySorted Z.le (map Offset (log_entries tri))) as Hsorted.
    { induction Hoz as [|z l Hz Hl IHl]; constructor; [exact IHl|].
      eapply Forall_impl; [exact Hl|]. intros y ->. rewrite Hz. lia. }
    destruct ((iteration fl start it st).2) as [[st'|]| |] eqn:Hr.
    + destruct (IH st') as (IHp & IHf & IHs).
      specialize (Hnext st' eq_refl). pose proof (written_nonneg tri) as Hnn.
      rewrite positions_app, log_entries_app, !map_app, Hp, Heq.
      rewrite <- Hnext, IHp.
      split; [reflexivity|]. split.
      * apply Forall_app. split.
        -- eapply Forall_impl; [exact Ho|]. intros msg ->. lia.
        -- eapply Forall_impl; [exact IHf|]. simpl. intros msg Hm. lia.
      * apply StronglySorted_app_2; [|exact Hsorted|exact IHs].
        intros x1 x2 H1 H2.
        rewrite Forall_forall in Hoz. rewrite (Hoz _ H1).
        apply list_elem_of_fmap in H2 as (msg & -> & Hin).
        rewrite Forall_forall in IHf. specialize (IHf _ Hin). simpl in IHf. lia.
    + rewrite app_nil_r, Hp, Heq. split; [reflexivity|]. split; [|exact Hsorted].
      eapply Forall_impl; [exact Ho|]. intros msg ->. lia.
    + rewrite app_nil_r, Hp, Heq. split; [reflexivity|]. split; [|exact Hsorted].
      eapply Forall_impl; [exact Ho|]. intros msg ->. lia.
    + rewrite app_nil_r, Hp, Heq. split; [reflexivity|]. split; [|exact Hsorted].
      eapply Forall_impl; [exact Ho|]. intros msg ->. lia.
Qed.

(** *** Single-shot mode *)

Lemma quiet_iteration fl start it st st1 pkts :
  next_block fl it st = Some (st1, pkts) ->
  accepted_from fl 0 pkts = [] ->
  iteration fl start it st = ([EvRead true], Ok (Some st1)).
Proof.
  intros Hn Hq. rewrite (iteration_block _ start _ _ _ _ Hn).
  rewrite (candidates_quiet _ _ _ _ _ _ Hq). reflexivity.
Qed.

(** Quiet iterations only read. *)
Lemma quiet_loop fl start pre rest st st1 :
  quiet fl pre st = Some st1 ->
  loop fl start (pre ++ rest) st =
  bind (replicate (length pre) (EvRead true), Ok tt) (fun _ => loop fl start rest st1).
Proof.
  revert st. induction pre as [|it pre IH]; intros st Hq.
  - injection Hq as ->. simpl. destruct (loop fl start rest st1). reflexivity.
  - simpl in Hq. destruct (next_block fl it st) as [[st' pkts]|] eqn:Hn; [|discriminate].
    destruct (accepted_from fl 0 pkts) eqn:Ha; [|discriminate].
    change ((it :: pre) ++ rest) with (it :: (pre ++ rest)).
    cbn [loop]. rewrite (quiet_iteration _ start _ _ _ _ Hn Ha).
    rewrite bind_ret_l_trace, (IH _ Hq). simpl.
    destruct (loop fl start rest st1). reflexivity.
Qed.

Lemma single_match_iteration fl start it st st1 pkts j scm more :
  single fl = true ->
  next_block fl it st = Some (st1, pkts) ->
  accepted_from fl 0 pkts = (j, scm) :: more ->
  (encoder fl <> None -> it_encode it j = true) ->
  (capture fl = true -> it_write it = true) ->
  iteration fl start it st =
  (EvRead true :: (output fl it j (log_message it st1 j scm)).1
     ++ (write_samples fl it st1).1, Ok None).
Proof.
  intros Hs Hn Ha Henc Hwr.
  apply injective_projections.
  - rewrite (iteration_block_trace _ start _ _ _ _ Hn).
    rewrite (candidates_single _ it st1 0 _ false _ _ _ Hs Ha).
    rewrite bind_trace, bind_result, output_result.
    destruct (encoder fl) as [e|] eqn:He.
    + rewrite Henc by discriminate. simpl. rewrite app_nil_r. reflexivity.
    + simpl. rewrite app_nil_r. reflexivity.
  - rewrite (iteration_block_result _ start _ _ _ _ Hn).
    rewrite (candidates_single _ it st1 0 _ false _ _ _ Hs Ha).
    rewrite bind_result, output_result, write_samples_result, Hs.
    assert (capture fl && negb (it_write it) = false) as ->.
    { destruct (capture fl); [rewrite Hwr by reflexivity|]; reflexivity. }
    destruct (encoder fl) as [e|] eqn:He.
    + rewrite Henc by discriminate. reflexivity.
    + reflexivity.
Qed.

Lemma replicate_shift {A} n (x : A) l :
  replicate n x ++ x :: l = x :: replicate n x ++ l.
Proof. induction n as [|n IH]; simpl; [reflexivity|]. rewrite IH. reflexivity. Qed.

Lemma reads_only n :
  reads (replicate n (EvRead (Msg := Msg) true)) = replicate n true /\
  log_entries (replicate n (EvRead (Msg := Msg) true)) = [] /\
  sample_writes (replicate n (EvRead (Msg := Msg) true)) = [].
Proof.
  induction n as [|n (IHr & IHe & IHw)]; [repeat split|].
  simpl. unfold reads in *. simpl. rewrite IHr. repeat split; assumption.
Qed.

Lemma deferred_only_closes fl :
  reads (deferred (Msg := Msg) fl) = [] /\
  log_entries (deferred (Msg := Msg) fl) = [] /\
  sample_writes (deferred (Msg := Msg) fl) = [].
Proof. unfold deferred. destruct (String.eqb (cpuprofile fl) ""); repeat split. Qed.

(** C3. In single-shot mode, when the first blocks read yield no accepted
    message and the next one does, with no signal taken and no failure on
    the way, the loop reads exactly those blocks, writes the entry of the
    first accepted message of the last block and (capture on) that
    block's samples, and returns: the process ends with status zero,
    whatever would have come next. *)
Theorem single_shot_stops_at_first_match
    fl create_ok d pos start pre it rest blk st1 st2 pkts j scm more :
  single fl = true ->
  cpuprofile fl = "" \/ create_ok = true ->
  Go.make (BlockSize2 (Cfg d)) = Some blk ->
  quiet fl pre {| block := blk; dec := d; sample_pos := pos |} = Some st1 ->
  next_block fl it st1 = Some (st2, pkts) ->
  accepted_from fl 0 pkts = (j, scm) :: more ->
  (encoder fl <> None -> it_encode it j = true) ->
  (capture fl = true -> it_write it = true) ->
  let run_ := main fl create_ok d pos start (pre ++ it :: rest) in
  run_ = (replicate (S (length pre)) (EvRead true)
            ++ (output fl it j (log_message it st2 j scm)).1
            ++ (write_samples fl it st2).1
            ++ deferred fl, Exited 0) /\
  reads run_.1 = replicate (S (length pre)) true /\
  log_entries run_.1 = [log_message it st2 j scm] /\
  sample_writes run_.1 = (if capture fl then [IQ (dec st2)] else []).
Proof.
  intros Hs Hprof Hmk Hq Hn Ha Henc Hwr.
  assert (main fl create_ok d pos start (pre ++ it :: rest) =
          (replicate (S (length pre)) (EvRead true)
             ++ (output fl it j (log_message it st2 j scm)).1
             ++ (write_samples fl it st2).1
             ++ deferred fl, Exited 0)) as Hmain.
  { unfold main, Run.
    assert (negb (String.eqb (cpuprofile fl) "") && negb create_ok = false) as ->.
    { destruct Hprof as [-> | ->]; [reflexivity | apply andb_false_r]. }
    rewrite Hmk, (quiet_loop _ start _ _ _ _ Hq).
    cbn [loop]. rewrite (single_match_iteration _ start _ _ _ _ _ _ _ Hs Hn Ha Henc Hwr).
    simpl. rewrite app_nil_r, replicate_shift. simpl.
    rewrite <- !app_assoc. reflexivity. }
  simpl. rewrite Hmain. simpl. split; [reflexivity|].
  destruct (reads_only (length pre)) as (Rr & Re & Rw).
  destruct (deferred_only_closes fl) as (Dr & De & Dw).
  change (EvRead true :: ?t) with ([EvRead (Msg := Msg) true] ++ t).
  rewrite !reads_app, !log_entries_app, !sample_writes_app.
  rewrite Rr, Re, Rw, Dr, De, Dw.
  rewrite output_no_read, output_entries, output_no_write.
  rewrite write_samples_no_read, write_samples_entries, write_samples_writes.
  simpl. rewrite !app_nil_r. repeat split.
Qed.

Lemma accepted_from_first_ge fl k pkts j scm more :
  accepted_from fl k pkts = (j, scm) :: more -> k <= j.
Proof.
  revert k. induction pkts as [|pkt rest IH]; intros k; [discriminate|].
  simpl. destruct (accepted fl pkt).
  - intros [= -> _ _]. lia.
  - intros Ha. specialize (IH _ Ha). lia.
Qed.

(** In normal mode, the candidates up to the first accepted one give just
    its entry. *)
Lemma candidates_normal_prefix fl it st k pkts pf j scm more :
  single fl = false ->
  accepted_from fl k pkts = (j, scm) :: more ->
  candidates fl it st k (take (S (j - k)) pkts) pf =
  bind (output fl it j (log_message it st j scm)) (fun _ => ret true).
Proof.
  intros Hs. revert k. induction pkts as [|pkt rest IH]; intros k Hq; [discriminate|].
  simpl in Hq. destruct (accepted fl pkt) as [scm'|] eqn:Ha.
  - injection Hq as -> -> _. rewrite Nat.sub_diag. simpl take. rewrite take_0.
    rewrite (candidates_cons_accepted _ _ _ _ _ _ _ _ Ha), Hs. reflexivity.
  - pose proof (accepted_from_first_ge _ _ _ _ _ _ Hq) as Hle.
    replace (S (j - k)) with (S (S (j - S k))) by lia.
    rewrite firstn_cons.
    rewrite (candidates_cons_rejected _ _ _ _ _ _ _ Ha). auto.
Qed.

(** C4, as the code has it.  In single-shot mode the candidates of a
    block are processed as in normal mode up to and including the first
    accepted one; there the loop over the candidates breaks: the block
    gives that one entry, and the candidates after it are not looked at. *)
Theorem single_shot_breaks_at_first_match fl it st k pkts pf j scm more :
  single fl = true ->
  accepted_from fl k pkts = (j, scm) :: more ->
  candidates fl it st k pkts pf =
    candidates (set_single false fl) it st k (take (S (j - k)) pkts) pf /\
  (forall others,
     candidates fl it st k (take (S (j - k)) pkts ++ others) pf =
     candidates fl it st k pkts pf) /\
  log_entries (candidates fl it st k pkts pf).1 = [log_message it st j scm].
Proof.
  intros Hs Ha.
  pose proof (candidates_single _ it st _ _ pf _ _ _ Hs Ha) as Hc.
  split; [|split].
  - rewrite Hc.
    rewrite (candidates_normal_prefix (set_single false fl) it st k pkts pf j scm more
               eq_refl Ha).
    reflexivity.
  - intros others. rewrite Hc.
    assert (exists more', accepted_from fl k (take (S (j - k)) pkts ++ others)
                          = (j, scm) :: more') as [more' Ha'].
    { clear Hc. revert k Ha. induction pkts as [|pkt rest IH]; intros k Ha; [discriminate|].
      simpl in Ha. destruct (accepted fl pkt) as [scm'|] eqn:Hp.
      - injection Ha as -> -> _. rewrite Nat.sub_diag. simpl. rewrite Hp. eauto.
      - pose proof (accepted_from_first_ge _ _ _ _ _ _ Ha) as Hle.
        replace (S (j - k)) with (S (S (j - S k))) by lia.
        rewrite firstn_cons. simpl. rewrite Hp. apply IH. exact Ha. }
    apply (candidates_single _ it st _ _ pf _ _ _ Hs Ha').
  - rewrite Hc, bind_trace, log_entries_app, output_entries.
    destruct ((output fl it j (log_message it st j scm)).2); reflexivity.
Qed.

(** *** The Length of an entry *)

Lemma make_length n blk : Go.make n = Some blk -> Z.of_nat (length blk) = n.
Proof.
  unfold Go.make. destruct (n <? 0)%Z eqn:Hn; [discriminate|].
  intros [= <-]. rewrite length_replicate. apply Z.ltb_ge in Hn. lia.
Qed.

Lemma fill_length buf data : length (Go.fill buf data) = length buf.
Proof.
  unfold Go.fill. rewrite length_app, length_take, length_drop. lia.
Qed.

Lemma candidates_lengths fl it st k pkts pf :
  Forall (fun msg => Length msg = Go.shl1 (BufferLength (Cfg (dec st))))
    (log_entries (candidates fl it st k pkts pf).1).
Proof.
  revert k pf. induction pkts as [|pkt rest IH]; intros k pf; [constructor|].
  destruct (accepted fl pkt) as [scm|] eqn:Ha.
  - rewrite (candidates_cons_accepted _ _ _ _ _ _ _ _ Ha).
    rewrite bind_trace, log_entries_app, output_entries.
    constructor; [reflexivity|].
    destruct ((output fl it k (log_message it st k scm)).2); try constructor.
    destruct (single fl); [constructor | apply IH].
  - rewrite (candidates_cons_rejected _ _ _ _ _ _ _ Ha). apply IH.
Qed.

(** C9, as the code has it.  The Length of every entry of a block is
    twice the decoder's BufferLength (as an int), whatever the length of
    the sample block; the sample block is allocated with BlockSize2 bytes
    and keeps that length over the reads. *)
Theorem entry_length_is_buffer_length fl start it st st1 pkts :
  next_block fl it st = Some (st1, pkts) ->
  Forall (fun msg => Length msg = Go.shl1 (BufferLength (Cfg (dec st1))))
    (log_entries (iteration fl start it st).1) /\
  length (block st1) = length (block st) /\
  (forall d blk, Go.make (BlockSize2 (Cfg d)) = Some blk ->
                 Z.of_nat (length blk) = BlockSize2 (Cfg d)).
Proof.
  intros Hn. split; [|split].
  - rewrite (iteration_block_trace _ start _ _ _ _ Hn). simpl.
    rewrite log_entries_app. apply Forall_app. split; [apply candidates_lengths|].
    destruct ((candidates fl it st1 0 pkts false).2) as [[]| |]; try constructor.
    rewrite write_samples_entries. constructor.
  - destruct (next_block_inv _ _ _ _ _ Hn) as (data & _ & _ & _ & ->). simpl.
    apply fill_length.
  - intros d blk. apply make_length.
Qed.

(** *** Fatal errors *)

Lemma dies_with_bind_l {A B} last (m : M Msg A) (f : A -> M Msg B) :
  dies_with last m -> dies_with last (bind m f).
Proof. intros [tr ->]. exists tr. reflexivity. Qed.

Lemma dies_with_bind_r {A B} last (m : M Msg A) (f : A -> M Msg B) a :
  m.2 = Ok a -> dies_with last (f a) -> dies_with last (bind m f).
Proof.
  destruct m as [tr0 r]. simpl. intros -> [tr Hf]. exists (tr0 ++ tr).
  unfold bind. rewrite Hf, app_assoc. reflexivity.
Qed.

(** An event in the trace of a [bind] comes from one of its two parts. *)
Lemma elem_of_bind_trace {A B} e (m : M Msg A) (f : A -> M Msg B) :
  e ∈ (bind m f).1 -> e ∈ m.1 \/ exists a, m.2 = Ok a /\ e ∈ (f a).1.
Proof.
  rewrite bind_trace, elem_of_app. intros [He | He]; [left; exact He|].
  destruct (m.2) as [a| |]; [right; eauto| |]; apply elem_of_nil in He; contradiction.
Qed.

(** A fatal event of an iteration is fatal to the loop. *)
Lemma loop_dies fl start e last :
  (forall it st, e ∈ (iteration fl start it st).1 ->
                 dies_with last (iteration fl start it st)) ->
  forall script st, e ∈ (loop fl start script st).1 ->
                    dies_with last (loop fl start script st).
Proof.
  intros Hit script. induction script as [|it rest IH]; intros st He.
  - apply elem_of_nil in He. contradiction.
  - cbn [loop] in *. apply elem_of_bind_trace in He as [He | ([st'|] & Hr & He)].
    + apply dies_with_bind_l. auto.
    + eapply dies_with_bind_r; [exact Hr|]. apply IH. exact He.
    + apply elem_of_nil in He. contradiction.
Qed.

Lemma output_no_close fl it k msg : closes (output fl it k msg).1 = [].
Proof.
  output_cases fl it k; reflexivity.
Qed.

Lemma candidates_no_close fl it st k pkts pf :
  closes (candidates fl it st k pkts pf).1 = [].
Proof.
  revert k pf. induction pkts as [|pkt rest IH]; intros k pf; [reflexivity|].
  destruct (accepted fl pkt) as [scm|] eqn:Ha.
  - rewrite (candidates_cons_accepted _ _ _ _ _ _ _ _ Ha).
    rewrite bind_trace, closes_app, output_no_close.
    destruct ((output fl it k (log_message it st k scm)).2); try reflexivity.
    destruct (single fl); [reflexivity | apply IH].
  - rewrite (candidates_cons_rejected _ _ _ _ _ _ _ Ha). apply IH.
Qed.

Lemma write_samples_no_close fl it st :
  closes (write_samples (Msg := Msg) fl it st).1 = [].
Proof.
  unfold write_samples. destruct (capture fl); [|reflexivity].
  simpl. destruct (it_write it); reflexivity.
Qed.

Lemma iteration_no_close fl start it st : closes (iteration fl start it st).1 = [].
Proof.
  destruct (next_block fl it st) as [[st1 pkts]|] eqn:Hn.
  - rewrite (iteration_block_trace _ start _ _ _ _ Hn). simpl.
    rewrite closes_app, candidates_no_close.
    destruct ((candidates fl it st1 0 pkts false).2) as [[]| |]; try reflexivity.
    apply write_samples_no_close.
  - destruct (iteration_no_block fl start it st Hn) as [-> | [-> | (_ & _ & ->)]];
      reflexivity.
Qed.

(** [Run] closes nothing itself. *)
Lemma loop_no_close fl start script st : closes (loop fl start script st).1 = [].
Proof.
  revert st. induction script as [|it rest IH]; intros st; [reflexivity|].
  rewrite loop_cons_trace, closes_app, iteration_no_close.
  destruct ((iteration fl start it st).2) as [[st'|]| |]; simpl; auto.
Qed.

(** Nothing in the loop panics once the block is allocated. *)
Lemma iteration_no_panic fl start it st : (iteration fl start it st).2 <> Panic.
Proof.
  destruct (next_block fl it st) as [[st1 pkts]|] eqn:Hn.
  - rewrite (iteration_block_result _ start _ _ _ _ Hn).
    destruct (candidates_result fl it st1 0 pkts false) as [-> | ->]; [discriminate|].
    simpl. destruct (accepted_from fl 0 pkts); [discriminate|].
    rewrite write_samples_result.
    destruct (capture fl && negb (it_write it)); [discriminate|].
    destruct (single fl); discriminate.
  - destruct (iteration_no_block fl start it st Hn) as [-> | [-> | (_ & _ & ->)]];
      discriminate.
Qed.

Lemma loop_no_panic fl start script st : (loop fl start script st).2 <> Panic.
Proof.
  revert st. induction script as [|it rest IH]; intros st; [discriminate|].
  rewrite loop_cons_result. pose proof (iteration_no_panic fl start it st) as Hp.
  destruct ((iteration fl start it st).2) as [[st'|]| |]; auto; discriminate.
Qed.

Lemma iteration_block_reads fl start it st st1 pkts :
  next_block fl it st = Some (st1, pkts) ->
  reads (iteration fl start it st).1 = [true].
Proof.
  intros Hn. rewrite (iteration_block_trace _ start _ _ _ _ Hn).
  change (EvRead true :: ?t) with ([EvRead (Msg := Msg) true] ++ t).
  rewrite !reads_app, candidates_no_read.
  destruct ((candidates fl it st1 0 pkts false).2) as [[]| |]; try reflexivity.
  rewrite write_samples_no_read. reflexivity.
Qed.

(** The deferred calls only close. *)
Lemma deferred_closes fl (e : Event Msg) :
  e ∈ deferred fl -> exists r, e = EvClose r.
Proof.
  unfold deferred. intros He. apply elem_of_app in He as [He | He].
  - destruct (String.eqb (cpuprofile fl) ""); [apply elem_of_nil in He; contradiction|].
    apply list_elem_of_singleton in He. eauto.
  - repeat (apply elem_of_cons in He as [-> | He]; [eauto|]).
    apply elem_of_nil in He. contradiction.
Qed.

Lemma iteration_read_error fl start it st :
  EvRead false ∈ (iteration fl start it st).1 ->
  dies_with [EvRead false; EvFatal ErrReadingSamples] (iteration fl start it st).
Proof.
  intros He. destruct (next_block fl it st) as [[st1 pkts]|] eqn:Hn.
  - assert (false ∈ reads (iteration fl start it st).1) as Hf.
    { apply list_elem_of_omap. exists (EvRead false). split; [exact He | reflexivity]. }
    rewrite (iteration_block_reads _ _ _ _ _ _ Hn) in Hf.
    apply list_elem_of_singleton in Hf. discriminate.
  - destruct (iteration_no_block fl start it st Hn) as [Hi | [Hi | (_ & _ & Hi)]];
      rewrite Hi in *; simpl in He.
    + apply elem_of_nil in He. contradiction.
    + apply list_elem_of_singleton in He. discriminate.
    + exists []. reflexivity.
Qed.

(** C5, as the code has it.  A failed read is fatal: the error is logged
    and the process ends with status 1; nothing is retried, the failed
    read and its report are the last events.  [log.Fatal] leaves through
    [os.Exit], so the deferred closes of [main] are not run: the trace
    holds no close. *)
Theorem read_error_is_fatal fl create_ok d pos start script :
  EvRead false ∈ (main fl create_ok d pos start script).1 ->
  (exists tr, (main fl create_ok d pos start script).1 =
              tr ++ [EvRead false; EvFatal ErrReadingSamples]) /\
  (main fl create_ok d pos start script).2 = Exited 1 /\
  closes (main fl create_ok d pos start script).1 = [].
Proof.
  unfold main, Run.
  destruct (negb (String.eqb (cpuprofile fl) "") && negb create_ok).
  { simpl. intros He. apply list_elem_of_singleton in He. discriminate. }
  destruct (Go.make (BlockSize2 (Cfg d))) as [blk|].
  - set (st := {| block := blk; dec := d; sample_pos := pos |}).
    pose proof (loop_dies fl start _ _ (iteration_read_error fl start) script st) as Hd.
    pose proof (loop_no_close fl start script st) as Hc.
    pose proof (loop_no_panic fl start script st) as Hp.
    destruct (loop fl start script st) as [tr [[|st']| |]] eqn:Hl; simpl in *; intros He.
    + apply elem_of_app in He as [He | He].
      * destruct (Hd He) as [tr' [= _]].
      * apply deferred_closes in He as [r [=]].
    + destruct (Hd He) as [tr' [= _]].
    + destruct (Hd He) as [tr' [= ->]]. split; [eauto|]. split; [reflexivity | exact Hc].
    + congruence.
  - simpl. intros He. apply deferred_closes in He as [r [=]].
Qed.

Lemma output_encode_failure fl it k msg msg' :
  EvEncode msg' false ∈ (output fl it k msg).1 ->
  dies_with [EvEncode msg' false; EvFatal ErrEncodingMessage] (output fl it k msg).
Proof.
  unfold output. destruct (encoder fl) as [e|].
  - destruct (it_encode it k); simpl.
    + destruct e; simpl; intros He; absent He.
    + intros He. apply elem_of_cons in He as [[= ->] | He].
      * exists []. reflexivity.
      * apply list_elem_of_singleton in He. discriminate.
  - destruct (String.eqb _ _); simpl; intros He;
      apply list_elem_of_singleton in He; discriminate.
Qed.

Lemma candidates_encode_failure fl it st k pkts pf msg :
  EvEncode msg false ∈ (candidates fl it st k pkts pf).1 ->
  dies_with [EvEncode msg false; EvFatal ErrEncodingMessage]
    (candidates fl it st k pkts pf).
Proof.
  revert k pf. induction pkts as [|pkt rest IH]; intros k pf.
  - simpl. intros He. apply elem_of_nil in He. contradiction.
  - destruct (accepted fl pkt) as [scm|] eqn:Ha.
    + rewrite (candidates_cons_accepted _ _ _ _ _ _ _ _ Ha).
      intros He. apply elem_of_bind_trace in He as [He | ([] & Hr & He)].
      * apply dies_with_bind_l, output_encode_failure. exact He.
      * eapply dies_with_bind_r; [exact Hr|]. destruct (single fl).
        -- apply elem_of_nil in He. contradiction.
        -- apply IH. exact He.
    + rewrite (candidates_cons_rejected _ _ _ _ _ _ _ Ha). apply IH.
Qed.

Lemma write_samples_no_encode fl it st msg ok :
  EvEncode msg ok ∉ (write_samples fl it st).1.
Proof.
  unfold write_samples. destruct (capture fl); simpl; [|apply not_elem_of_nil].
  destruct (it_write it); simpl; intros He; absent He.
Qed.

Lemma iteration_encode_failure fl start msg it st :
  EvEncode msg false ∈ (iteration fl start it st).1 ->
  dies_with [EvEncode msg false; EvFatal ErrEncodingMessage] (iteration fl start it st).
Proof.
  destruct (next_block fl it st) as [[st1 pkts]|] eqn:Hn.
  - rewrite (iteration_block _ start _ _ _ _ Hn). intros He.
    apply elem_of_bind_trace in He as [He | ([] & _ & He)].
    { apply list_elem_of_singleton in He. discriminate. }
    eapply dies_with_bind_r; [reflexivity|].
    apply elem_of_bind_trace in He as [He | (pktFound & Hr & He)].
    { apply dies_with_bind_l, candidates_encode_failure. exact He. }
    exfalso. destruct pktFound.
    + apply elem_of_bind_trace in He as [He | (st2 & _ & He)].
      * exact (write_samples_no_encode _ _ _ _ _ He).
      * destruct (single fl); apply elem_of_nil in He; contradiction.
    + apply elem_of_nil in He. contradiction.
  - destruct (iteration_no_block fl start it st Hn) as [-> | [-> | (_ & _ & ->)]];
      simpl; intros He; absent He.
Qed.

(** C6, as the code has it.  With a structured encoder, a failure of
    [encoder.Encode] (serialising the entry or writing it to the log
    sink) is fatal: the error is logged and the process ends with status
    1, the failed call and its report being the last events. *)
Theorem encode_failure_is_fatal fl create_ok d pos start script msg :
  EvEncode msg false ∈ (main fl create_ok d pos start script).1 ->
  (exists tr, (main fl create_ok d pos start script).1 =
              tr ++ [EvEncode msg false; EvFatal ErrEncodingMessage]) /\
  (main fl create_ok d pos start script).2 = Exited 1.
Proof.
  assert (EvEncode msg false ∉ deferred fl) as Hdef.
  { intros He. apply deferred_closes in He as [r [=]]. }
  unfold main, Run.
  destruct (negb (String.eqb (cpuprofile fl) "") && negb create_ok).
  { simpl. intros He. apply list_elem_of_singleton in He. discriminate. }
  destruct (Go.make (BlockSize2 (Cfg d))) as [blk|].
  - set (st := {| block := blk; dec := d; sample_pos := pos |}).
    pose proof (loop_dies fl start _ _
                  (fun it st => iteration_encode_failure fl start msg it st) script st) as Hd.
    pose proof (loop_no_panic fl start script st) as Hp.
    destruct (loop fl start script st) as [tr [[|st']| |]] eqn:Hl; simpl in *; intros He.
    + apply elem_of_app in He as [He | He]; [|contradiction].
      destruct (Hd He) as [tr' [= _]].
    + destruct (Hd He) as [tr' [= _]].
    + destruct (Hd He) as [tr' [= ->]]. split; [eauto | reflexivity].
    + congruence.
  - simpl. intros He. contradiction.
Qed.

End Properties.

(** ** Further properties of the loop *)

Section MoreProperties.

Context {Msg D : Type} `{!Message Msg, !Parser Msg, !Decoder D}.

Implicit Types (fl : Flags) (it : Iter) (st : State D) (k : nat).
Implicit Types (pkt : Packet) (pkts : list Packet) (scm : Msg).
Implicit Types (tr : list (Event Msg)) (msg : LogMessage Msg).

(** An event that is none of those listed is not in the list. *)
Ltac not_there He :=
  repeat (apply elem_of_cons in He as [He | He]; [discriminate|]);
  apply elem_of_nil in He; contradiction.

(** *** The loop over a stream in two parts *)

Lemma bind_assoc {A B C} (m : M Msg A) (f : A -> M Msg B) (g : B -> M Msg C) :
  bind (bind m f) g = bind m (fun a => bind (f a) g).
Proof.
  destruct m as [tr [a| |]]; simpl; try reflexivity.
  destruct (f a) as [tr1 [b| |]]; simpl; try reflexivity.
  destruct (g b) as [tr2 r]. rewrite app_assoc. reflexivity.
Qed.

Lemma bind_ext {A B} (m : M Msg A) (f g : A -> M Msg B) :
  (forall a, f a = g a) -> bind m f = bind m g.
Proof. intros Hfg. destruct m as [tr [a| |]]; simpl; rewrite ?Hfg; reflexivity. Qed.

Lemma loop_app fl start pre rest st :
  loop fl start (pre ++ rest) st = bind (loop fl start pre st) (resume fl start rest).
Proof.
  revert st. induction pre as [|it pre IH]; intros st.
  - cbn [loop app]. rewrite bind_ret_l. reflexivity.
  - cbn [loop app]. rewrite bind_assoc. apply bind_ext. intros [st'|].
    + apply IH.
    + reflexivity.
Qed.

Lemma Run_app fl d pos start pre rest :
  Run fl d pos start (pre ++ rest) =
  bind (Run fl d pos start pre) (resume fl start rest).
Proof.
  unfold Run. destruct (Go.make (BlockSize2 (Cfg d))); [apply loop_app | reflexivity].
Qed.

(** *** Leaving the loop on a signal or on the time limit *)

Lemma main_returned fl create_ok d pos start script tr :
  cpuprofile fl = "" \/ create_ok = true ->
  Run fl d pos start script = (tr, Ok Returned) ->
  main fl create_ok d pos start script = (tr ++ deferred fl, Exited 0).
Proof.
  intros Hprof Hrun. unfold main.
  assert (negb (String.eqb (cpuprofile fl) "") && negb create_ok = false) as ->.
  { destruct Hprof as [-> | ->]; [reflexivity | apply andb_false_r]. }
  rewrite Hrun. reflexivity.
Qed.

Lemma Run_then_iteration fl d pos start pre it rest tr st1 :
  Run fl d pos start pre = (tr, Ok (Running st1)) ->
  Run fl d pos start (pre ++ it :: rest) =
  bind (tr, Ok tt) (fun _ => loop fl start (it :: rest) st1).
Proof.
  intros Hrun. rewrite Run_app, Hrun. simpl.
  destruct (bind (iteration fl start it st1) _). reflexivity.
Qed.

(** X2. A signal waiting at the top of an iteration stops the loop there:
    no read is started, nothing is written to the log sink or to the
    capture file, what was written before stays, the deferred closes run
    and the process ends with status zero.  Only when the time limit has
    fired as well may its report be printed first. *)
Theorem pending_interrupt_stops fl create_ok d pos start pre it rest tr st1 :
  cpuprofile fl = "" \/ create_ok = true ->
  Run fl d pos start pre = (tr, Ok (Running st1)) ->
  it_sigint it = true ->
  exists note,
    main fl create_ok d pos start (pre ++ it :: rest)
    = (tr ++ note ++ deferred fl, Exited 0) /\
    (note = [] \/
     (timeLimit fl <> 0%Z /\ it_timer it = true /\ it_pick it = false /\
      note = [EvTimeLimit (it_clock it - start)%Z])).
Proof.
  intros Hprof Hrun Hsig.
  pose proof (Run_then_iteration _ _ _ _ _ it rest _ _ Hrun) as Happ.
  cbn [loop] in Happ. unfold iteration, select in Happ. rewrite Hsig in Happ.
  destruct (negb (timeLimit fl =? 0)%Z && it_timer it) eqn:Ht.
  - destruct (it_pick it) eqn:Hp.
    + exists []. split; [|left; reflexivity].
      simpl in Happ. rewrite app_nil_r in Happ.
      rewrite (main_returned _ _ _ _ _ _ _ Hprof Happ). reflexivity.
    + exists [EvTimeLimit (it_clock it - start)%Z]. split.
      * simpl in Happ. rewrite (main_returned _ _ _ _ _ _ _ Hprof Happ).
        rewrite <- app_assoc. reflexivity.
      * right. apply andb_true_iff in Ht as [Hl Htm].
        apply negb_true_iff, Z.eqb_neq in Hl. auto.
  - exists []. split; [|left; reflexivity].
    simpl in Happ. rewrite app_nil_r in Happ.
    rewrite (main_returned _ _ _ _ _ _ _ Hprof Happ). reflexivity.
Qed.

(** X3. With a time limit set, once the timer has fired and no signal is
    waiting, the loop prints the time elapsed since it was entered and
    returns without reading: the process ends with status zero after the
    deferred closes. *)
Theorem time_limit_stops fl create_ok d pos start pre it rest tr st1 :
  cpuprofile fl = "" \/ create_ok = true ->
  Run fl d pos start pre = (tr, Ok (Running st1)) ->
  timeLimit fl <> 0%Z ->
  it_timer it = true ->
  it_sigint it = false ->
  main fl create_ok d pos start (pre ++ it :: rest)
  = (tr ++ [EvTimeLimit (it_clock it - start)%Z] ++ deferred fl, Exited 0).
Proof.
  intros Hprof Hrun Hl Ht Hsig.
  pose proof (Run_then_iteration _ _ _ _ _ it rest _ _ Hrun) as Happ.
  cbn [loop] in Happ. unfold iteration, select in Happ. rewrite Hsig, Ht in Happ.
  apply Z.eqb_neq in Hl. rewrite Hl in Happ. simpl in Happ.
  rewrite (main_returned _ _ _ _ _ _ _ Hprof Happ), <- app_assoc. reflexivity.
Qed.

(** *** What a run never does *)

Lemma omap_none {A B} (f : A -> option B) (l : list A) :
  Forall (fun x => f x = None) l -> omap f l = [].
Proof.
  induction 1 as [|x l Hx _ IH]; [reflexivity|]. simpl. rewrite Hx. exact IH.
Qed.

Lemma accepted_accept fl pkt scm : accepted fl pkt = Some scm -> accept fl scm = true.
Proof.
  unfold accepted. destruct (Parse pkt) as [scm'|]; [|discriminate].
  destruct (accept fl scm') eqn:Ha; [|discriminate]. intros [= <-]. exact Ha.
Qed.

Lemma output_allowed fl it k msg :
  accept fl (Message_ msg) = true ->
  Forall (fun e => allowed fl e = true) (output fl it k msg).1.
Proof.
  intros Ha. unfold output, capture.
  destruct (encoder fl) as [[]|] eqn:He; simpl.
  - destruct (it_encode it k); simpl; repeat constructor; simpl; rewrite He; auto.
  - destruct (it_encode it k); simpl; repeat constructor; simpl; rewrite He; auto.
  - destruct (String.eqb (sampleFilename fl) Go.DevNull) eqn:Hd;
      repeat constructor; simpl; unfold capture; rewrite He, Hd, Ha; reflexivity.
Qed.

Lemma candidates_allowed fl it st k pkts pf :
  Forall (fun e => allowed fl e = true) (candidates fl it st k pkts pf).1.
Proof.
  revert k pf. induction pkts as [|pkt rest IH]; intros k pf; [constructor|].
  destruct (accepted fl pkt) as [scm|] eqn:Ha.
  - rewrite (candidates_cons_accepted _ _ _ _ _ _ _ _ Ha), bind_trace.
    apply Forall_app. split.
    + apply output_allowed. simpl. exact (accepted_accept _ _ _ Ha).
    + destruct ((output fl it k (log_message it st k scm)).2); try constructor.
      destruct (single fl); [constructor | apply IH].
  - rewrite (candidates_cons_rejected _ _ _ _ _ _ _ Ha). apply IH.
Qed.

Lemma write_samples_allowed fl it st :
  Forall (fun e => allowed fl e = true) (write_samples (Msg := Msg) fl it st).1.
Proof.
  unfold write_samples. destruct (capture fl) eqn:Hc; [|constructor].
  simpl. destruct (it_write it); simpl; repeat constructor; simpl; exact Hc.
Qed.

Lemma iteration_allowed fl start it st :
  Forall (fun e => allowed fl e = true) (iteration fl start it st).1.
Proof.
  destruct (next_block fl it st) as [[st1 pkts]|] eqn:Hn.
  - rewrite (iteration_block_trace _ start _ _ _ _ Hn).
    constructor; [reflexivity|]. apply Forall_app. split; [apply candidates_allowed|].
    destruct ((candidates fl it st1 0 pkts false).2) as [[]| |]; try constructor.
    apply write_samples_allowed.
  - unfold next_block in Hn. unfold iteration.
    destruct (select fl it) eqn:Hs.
    + constructor.
    + simpl. repeat constructor. simpl.
      unfold select in Hs.
      destruct (negb (timeLimit fl =? 0)%Z); [reflexivity|].
      simpl in Hs. destruct (it_sigint it); discriminate.
    + destruct (it_read it) as [data|].
      * destruct (Decode (dec st) (Go.fill (block st) data)). discriminate.
      * simpl. repeat constructor.
Qed.

Lemma loop_allowed fl start script st :
  Forall (fun e => allowed fl e = true) (loop fl start script st).1.
Proof.
  revert st. induction script as [|it rest IH]; intros st; [constructor|].
  rewrite loop_cons_trace. apply Forall_app. split; [apply iteration_allowed|].
  destruct ((iteration fl start it st).2) as [[st'|]| |]; try constructor. apply IH.
Qed.

(** Everything [Run] does is allowed by the flags. *)
Lemma Run_allowed fl d pos start script :
  Forall (fun e => allowed fl e = true) (Run fl d pos start script).1.
Proof.
  unfold Run. destruct (Go.make (BlockSize2 (Cfg d))); [apply loop_allowed | constructor].
Qed.

(** The trace of [main] is the trace of [Run], followed by the deferred
    closes or nothing, or the report of the profile that could not be
    created. *)
Lemma main_trace fl create_ok d pos start script :
  (main fl create_ok d pos start script).1 = [EvFatal ErrCreateProfile] \/
  (main fl create_ok d pos start script).1 = (Run fl d pos start script).1 \/
  (main fl create_ok d pos start script).1
  = (Run fl d pos start script).1 ++ deferred fl.
Proof.
  unfold main. destruct (negb (String.eqb (cpuprofile fl) "") && negb create_ok); [auto|].
  destruct (Run fl d pos start script) as [tr [[|st]| |]]; simpl; auto.
Qed.

(** An observer that sees nothing in the deferred closes nor in the
    profile error sees in [main] what it sees in [Run]. *)
Lemma main_observed {B} (f : Event Msg -> option B) fl create_ok d pos start script :
  (forall r, f (EvClose r) = None) -> f (EvFatal ErrCreateProfile) = None ->
  omap f (main fl create_ok d pos start script).1 = [] \/
  omap f (main fl create_ok d pos start script).1 = omap f (Run fl d pos start script).1.
Proof.
  intros Hclose Hprof.
  assert (omap f (deferred (Msg := Msg) fl) = []) as Hdef.
  { apply omap_none. apply Forall_forall. intros e He.
    apply deferred_closes in He as [r ->]. apply Hclose. }
  destruct (main_trace fl create_ok d pos start script) as [-> | [-> | ->]].
  - left. simpl. rewrite Hprof. reflexivity.
  - right. reflexivity.
  - right. rewrite omap_app, Hdef, app_nil_r. reflexivity.
Qed.

(** A run that writes no samples leaves every Offset at the position the
    file had when the loop was entered. *)
Lemma Run_offsets_no_write fl d pos start script :
  sample_writes (Run fl d pos start script).1 = [] ->
  Forall (fun msg => Offset msg = pos) (log_entries (Run fl d pos start script).1).
Proof.
  unfold Run. destruct (Go.make (BlockSize2 (Cfg d))) as [blk|]; [|constructor].
  intros Hw.
  destruct (loop_offsets fl start script
              {| block := blk; dec := d; sample_pos := pos |}) as (Hp & _ & _).
  simpl in Hp. rewrite (positions_no_write _ _ Hw) in Hp.
  induction (log_entries (loop fl start script
              {| block := blk; dec := d; sample_pos := pos |}).1) as [|msg l IH];
    [constructor|].
  simpl in Hp. injection Hp as Hm Hl. constructor; [congruence | exact (IH Hl)].
Qed.

(** X4. Without a time limit ([timeLimit] is 0) the loop never leaves on
    the timer, whatever the timer does: no run reports a time limit. *)
Theorem no_time_limit_never_fires fl create_ok d pos start script :
  timeLimit fl = 0%Z ->
  time_limits (main fl create_ok d pos start script).1 = [].
Proof.
  intros Hl. unfold time_limits.
  destruct (main_observed time_limit_of fl create_ok d pos start script
              (fun _ => eq_refl) eq_refl) as [-> | ->]; [reflexivity|].
  apply omap_none. eapply Forall_impl; [apply Run_allowed|].
  intros [ok|t ok|msg ok|iq ok|el|what|r]; simpl; try reflexivity.
  rewrite Hl. discriminate.
Qed.

(** X5. With the sample file set to [os.DevNull] no run ever writes to
    the sample file or reports a failed write of samples, every plain
    line is printed without the offset, and every entry records the
    position the file had when the loop was entered. *)
Theorem no_capture_no_write fl create_ok d pos start script :
  sampleFilename fl = Go.DevNull ->
  let tr := (main fl create_ok d pos start script).1 in
  sample_writes tr = [] /\
  (ErrWritingSamples ∉ fatals tr) /\
  Forall (fun t => forall msg, t <> StringOf msg) (lines tr) /\
  Forall (fun msg => Offset msg = pos) (log_entries tr).
Proof.
  intros Hd. simpl.
  assert (capture fl = false) as Hc by (unfold capture; rewrite Hd; reflexivity).
  pose proof (Run_allowed fl d pos start script) as Hall.
  assert (sample_writes (Run fl d pos start script).1 = []) as Hw.
  { apply omap_none. eapply Forall_impl; [exact Hall|].
    intros [ok|t ok|msg ok|iq ok|el|what|r]; simpl; try reflexivity.
    rewrite Hc. discriminate. }
  split; [|split; [|split]].
  - unfold sample_writes in *.
    destruct (main_observed write_of fl create_ok d pos start script
                (fun _ => eq_refl) eq_refl) as [-> | ->]; [reflexivity | exact Hw].
  - intros Hin. apply list_elem_of_omap in Hin as (e & He & Hf).
    destruct (main_trace fl create_ok d pos start script) as [Hm | [Hm | Hm]];
      rewrite Hm in He.
    + apply list_elem_of_singleton in He. subst e. discriminate.
    + rewrite Forall_forall in Hall. specialize (Hall _ He).
      destruct e as [| | | | |[]|]; try discriminate. simpl in Hall. congruence.
    + apply elem_of_app in He as [He | He].
      * rewrite Forall_forall in Hall. specialize (Hall _ He).
        destruct e as [| | | | |[]|]; try discriminate. simpl in Hall. congruence.
      * apply deferred_closes in He as [r ->]. discriminate.
  - apply Forall_forall. intros t Hin msg ->.
    apply list_elem_of_omap in Hin as (e & He & Hf).
    destruct (main_trace fl create_ok d pos start script) as [Hm | [Hm | Hm]];
      rewrite Hm in He.
    + apply list_elem_of_singleton in He. subst e. discriminate.
    + rewrite Forall_forall in Hall. specialize (Hall _ He).
      destruct e as [|t ok| | | | |]; try discriminate. injection Hf as ->.
      simpl in Hall. rewrite Hc in Hall. destruct (encoder fl); discriminate.
    + apply elem_of_app in He as [He | He].
      * rewrite Forall_forall in Hall. specialize (Hall _ He).
        destruct e as [|t ok| | | | |]; try discriminate. injection Hf as ->.
        simpl in Hall. rewrite Hc in Hall. destruct (encoder fl); discriminate.
      * apply deferred_closes in He as [r ->]. discriminate.
  - destruct (main_observed entry_of fl create_ok d pos start script
                (fun _ => eq_refl) eq_refl) as [He | He];
      unfold log_entries; rewrite He; [constructor|].
    exact (Run_offsets_no_write fl d pos start script Hw).
Qed.

(** X6. Every message handed to the log sink has passed the filter: its
    identifier and its type are in the inclusion sets, where these are
    not empty.  No run logs a message outside them. *)
Theorem logged_messages_pass_filter fl create_ok d pos start script :
  Forall (fun msg =>
            (meterID fl = ∅ \/ meterID fl !! MeterID (Message_ msg) = Some true) /\
            (meterType fl = ∅ \/ meterType fl !! MeterType (Message_ msg) = Some true))
    (log_entries (main fl create_ok d pos start script).1).
Proof.
  unfold log_entries.
  destruct (main_observed entry_of fl create_ok d pos start script
              (fun _ => eq_refl) eq_refl) as [-> | ->]; [constructor|].
  apply Forall_forall. intros msg Hin.
  apply list_elem_of_omap in Hin as (e & He & Hf).
  pose proof (Run_allowed fl d pos start script) as Hall.
  rewrite Forall_forall in Hall. specialize (Hall _ He).
  apply accept_iff.
  destruct e as [ok|[m|m|] ok|m ok|iq ok|el|what|r]; simpl in Hf; try discriminate;
    injection Hf as ->; simpl in Hall; destruct (encoder fl); try discriminate.
  - apply andb_true_iff in Hall as [_ Hall]. exact Hall.
  - apply andb_true_iff in Hall as [_ Hall]. exact Hall.
  - exact Hall.
Qed.

(** *** A failed write of samples *)

Lemma candidates_no_sample_write fl it st k pkts pf iq ok :
  EvSampleWrite iq ok ∉ (candidates fl it st k pkts pf).1.
Proof.
  intros He.
  assert (iq ∈ sample_writes (candidates fl it st k pkts pf).1) as Hin.
  { apply list_elem_of_omap. exists (EvSampleWrite iq ok). auto. }
  rewrite candidates_no_write in Hin. apply elem_of_nil in Hin. exact Hin.
Qed.

Lemma write_samples_failure fl it st iq :
  EvSampleWrite iq false ∈ (write_samples (Msg := Msg) fl it st).1 ->
  dies_with [EvSampleWrite iq false; EvFatal ErrWritingSamples]
    (write_samples (Msg := Msg) fl it st).
Proof.
  unfold write_samples. destruct (capture fl); simpl.
  - destruct (it_write it); simpl; intros He.
    + apply list_elem_of_singleton in He. discriminate.
    + apply elem_of_cons in He as [[= ->] | He].
      * exists []. reflexivity.
      * apply list_elem_of_singleton in He. discriminate.
  - intros He. apply elem_of_nil in He. contradiction.
Qed.

Lemma iteration_write_failure fl start iq it st :
  EvSampleWrite iq false ∈ (iteration fl start it st).1 ->
  dies_with [EvSampleWrite iq false; EvFatal ErrWritingSamples]
    (iteration fl start it st).
Proof.
  destruct (next_block fl it st) as [[st1 pkts]|] eqn:Hn.
  - rewrite (iteration_block _ start _ _ _ _ Hn). intros He.
    apply elem_of_bind_trace in He as [He | ([] & _ & He)].
    { apply list_elem_of_singleton in He. discriminate. }
    eapply dies_with_bind_r; [reflexivity|].
    apply elem_of_bind_trace in He as [He | (pktFound & Hr & He)].
    { exfalso. exact (candidates_no_sample_write _ _ _ _ _ _ _ _ He). }
    eapply dies_with_bind_r; [exact Hr|].
    destruct pktFound.
    + apply elem_of_bind_trace in He as [He | (st2 & _ & He)].
      * apply dies_with_bind_l, write_samples_failure. exact He.
      * destruct (single fl); apply elem_of_nil in He; contradiction.
    + apply elem_of_nil in He. contradiction.
  - destruct (iteration_no_block fl start it st Hn) as [-> | [-> | (_ & _ & ->)]];
      simpl; intros He; not_there He.
Qed.

(** X7. A failed write on the sample file is fatal: the error is logged
    and the process ends with status 1, the failed write and its report
    being the last events (lines 186-189). *)
Theorem sample_write_failure_is_fatal fl create_ok d pos start script iq :
  EvSampleWrite iq false ∈ (main fl create_ok d pos start script).1 ->
  (exists tr, (main fl create_ok d pos start script).1 =
              tr ++ [EvSampleWrite iq false; EvFatal ErrWritingSamples]) /\
  (main fl create_ok d pos start script).2 = Exited 1.
Proof.
  assert (EvSampleWrite iq false ∉ deferred (Msg := Msg) fl) as Hdef.
  { intros He. apply deferred_closes in He as [r [=]]. }
  unfold main, Run.
  destruct (negb (String.eqb (cpuprofile fl) "") && negb create_ok).
  { simpl. intros He. apply list_elem_of_singleton in He. discriminate. }
  destruct (Go.make (BlockSize2 (Cfg d))) as [blk|].
  - set (st := {| block := blk; dec := d; sample_pos := pos |}).
    pose proof (loop_dies fl start _ _
                  (fun it st => iteration_write_failure fl start iq it st) script st) as Hd.
    pose proof (loop_no_panic fl start script st) as Hp.
    destruct (loop fl start script st) as [tr [[|st']| |]] eqn:Hl; simpl in *; intros He.
    + apply elem_of_app in He as [He | He]; [|contradiction].
      destruct (Hd He) as [tr' [= _]].
    + destruct (Hd He) as [tr' [= _]].
    + destruct (Hd He) as [tr' [= ->]]. split; [eauto | reflexivity].
    + congruence.
  - simpl. intros He. contradiction.
Qed.

(** *** Counting writes and entries *)

Lemma candidates_found_entry fl it st k pkts :
  (candidates fl it st k pkts false).2 = Ok true ->
  log_entries (candidates fl it st k pkts false).1 <> [].
Proof.
  revert k. induction pkts as [|pkt rest IH]; intros k; [discriminate|].
  destruct (accepted fl pkt) as [scm|] eqn:Ha.
  - rewrite (candidates_cons_accepted _ _ _ _ _ _ _ _ Ha).
    rewrite bind_trace, log_entries_app, output_entries. discriminate.
  - rewrite (candidates_cons_rejected _ _ _ _ _ _ _ Ha). apply IH.
Qed.

Lemma iteration_counts fl start it st :
  length (sample_writes (iteration fl start it st).1)
    <= length (log_entries (iteration fl start it st).1) /\
  length (sample_writes (iteration fl start it st).1)
    <= length (reads (iteration fl start it st).1).
Proof.
  destruct (next_block fl it st) as [[st1 pkts]|] eqn:Hn.
  - rewrite (iteration_block_reads _ start _ _ _ _ Hn).
    destruct (iteration_summary fl start it st) as (_ & _ & Hl & _).
    split; [|exact Hl].
    rewrite (iteration_block_trace _ start _ _ _ _ Hn). simpl.
    rewrite sample_writes_app, log_entries_app, !length_app, candidates_no_write.
    pose proof (candidates_found_entry fl it st1 0 pkts) as Hf.
    destruct ((candidates fl it st1 0 pkts false).2) as [[]| |]; simpl; try lia.
    rewrite write_samples_writes.
    destruct (log_entries (candidates fl it st1 0 pkts false).1);
      [exfalso; apply Hf; reflexivity|].
    destruct (capture fl); simpl; lia.
  - destruct (iteration_no_block fl start it st Hn) as [-> | [-> | (_ & _ & ->)]];
      simpl; lia.
Qed.

Lemma loop_counts fl start script st :
  length (sample_writes (loop fl start script st).1)
    <= length (log_entries (loop fl start script st).1) /\
  length (sample_writes (loop fl start script st).1)
    <= length (reads (loop fl start script st).1).
Proof.
  revert st. induction script as [|it rest IH]; intros st; [simpl; lia|].
  rewrite loop_cons_trace, sample_writes_app, log_entries_app, reads_app, !length_app.
  destruct (iteration_counts fl start it st) as (H1 & H2).
  destruct ((iteration fl start it st).2) as [[st'|]| |]; simpl; try lia.
  destruct (IH st') as (H3 & H4). lia.
Qed.

Lemma writes_need_entries_aux fl create_ok d pos start script :
  length (sample_writes (main fl create_ok d pos start script).1)
    <= length (log_entries (main fl create_ok d pos start script).1).
Proof.
  assert (length (sample_writes (Run fl d pos start script).1)
            <= length (log_entries (Run fl d pos start script).1)) as HRun.
  { unfold Run. destruct (Go.make (BlockSize2 (Cfg d))); [apply loop_counts|].
    simpl. lia. }
  destruct (deferred_only_closes (Msg := Msg) fl) as (Dr & De & Dw).
  destruct (main_trace fl create_ok d pos start script) as [-> | [-> | ->]].
  - simpl. lia.
  - exact HRun.
  - rewrite sample_writes_app, log_entries_app, De, Dw, !app_nil_r. exact HRun.
Qed.

(** X8. Samples are only persisted for blocks that gave a match: in any
    run the writes on the sample file are no more than the entries handed
    to the log sink, and no more than the blocks read. *)
Theorem writes_need_matches fl create_ok d pos start script :
  length (sample_writes (main fl create_ok d pos start script).1)
    <= length (log_entries (main fl create_ok d pos start script).1) /\
  length (sample_writes (main fl create_ok d pos start script).1)
    <= length (reads (main fl create_ok d pos start script).1).
Proof.
  assert (length (sample_writes (Run fl d pos start script).1)
            <= length (log_entries (Run fl d pos start script).1) /\
          length (sample_writes (Run fl d pos start script).1)
            <= length (reads (Run fl d pos start script).1)) as HRun.
  { unfold Run. destruct (Go.make (BlockSize2 (Cfg d))); [apply loop_counts|].
    simpl. lia. }
  destruct (deferred_only_closes (Msg := Msg) fl) as (Dr & De & Dw).
  destruct (main_trace fl create_ok d pos start script) as [-> | [-> | ->]].
  - simpl. lia.
  - exact HRun.
  - rewrite sample_writes_app, log_entries_app, reads_app, Dr, De, Dw, !app_nil_r.
    exact HRun.
Qed.

(** *** Single-shot mode over a whole run *)

Lemma single_iteration fl start it st :
  single fl = true ->
  length (log_entries (iteration fl start it st).1) <= 1 /\
  (log_entries (iteration fl start it st).1 <> [] ->
   forall st', (iteration fl start it st).2 <> Ok (Some st')).
Proof.
  intros Hs. destruct (next_block fl it st) as [[st1 pkts]|] eqn:Hn.
  - rewrite (iteration_block_trace _ start _ _ _ _ Hn).
    rewrite (iteration_block_result _ start _ _ _ _ Hn). simpl.
    rewrite log_entries_app.
    destruct (accepted_from fl 0 pkts) as [|[j scm] more] eqn:Ha.
    + rewrite (candidates_quiet _ _ _ _ _ _ Ha). simpl. split; [lia | congruence].
    + rewrite (candidates_single _ it st1 0 _ false _ _ _ Hs Ha).
      rewrite bind_trace, bind_result, log_entries_app, output_entries.
      destruct ((output fl it j (log_message it st1 j scm)).2) as [[]| |]; simpl.
      * rewrite write_samples_entries. simpl. split; [lia|]. intros _ st'.
        destruct ((write_samples fl it st1).2); rewrite ?Hs; discriminate.
      * split; [lia | discriminate].
      * split; [lia | discriminate].
  - destruct (iteration_no_block fl start it st Hn) as [-> | [-> | (_ & _ & ->)]];
      simpl; (split; [lia | discriminate]).
Qed.

Lemma single_loop fl start script st :
  single fl = true ->
  length (log_entries (loop fl start script st).1) <= 1.
Proof.
  intros Hs. revert st. induction script as [|it rest IH]; intros st; [simpl; lia|].
  rewrite loop_cons_trace, log_entries_app, length_app.
  destruct (single_iteration fl start it st Hs) as (Hle & Hstop).
  destruct ((iteration fl start it st).2) as [[st'|]| |] eqn:Hr; simpl; try lia.
  destruct (log_entries (iteration fl start it st).1) as [|msg l] eqn:He.
  - simpl. apply IH.
  - exfalso. apply (Hstop ltac:(discriminate) st'). reflexivity.
Qed.

(** X9. In single-shot mode a whole run hands at most one entry to the
    log sink and makes at most one write on the sample file, however many
    blocks and candidates the stream holds. *)
Theorem single_shot_one_entry fl create_ok d pos start script :
  single fl = true ->
  length (log_entries (main fl create_ok d pos start script).1) <= 1 /\
  length (sample_writes (main fl create_ok d pos start script).1) <= 1.
Proof.
  intros Hs.
  assert (length (log_entries (Run fl d pos start script).1) <= 1) as HRun.
  { unfold Run. destruct (Go.make (BlockSize2 (Cfg d))); [apply single_loop, Hs|].
    simpl. lia. }
  destruct (deferred_only_closes (Msg := Msg) fl) as (Dr & De & Dw).
  assert (length (log_entries (main fl create_ok d pos start script).1) <= 1) as Hm.
  { destruct (main_trace fl create_ok d pos start script) as [-> | [-> | ->]].
    - simpl. lia.
    - exact HRun.
    - rewrite log_entries_app, De, app_nil_r. exact HRun. }
  split; [exact Hm|].
  pose proof (writes_need_entries_aux fl create_ok d pos start script) as Hw. lia.
Qed.

(** *** How a run ends *)

Lemma fatals_app tr1 tr2 : fatals (tr1 ++ tr2) = fatals tr1 ++ fatals tr2.
Proof. apply omap_app. Qed.

Lemma ends_well_ret {A} (a : A) : ends_well (ret (Msg := Msg) a).
Proof. reflexivity. Qed.

Lemma ends_well_fatal {A} what : ends_well (fatal (Msg := Msg) (A := A) what).
Proof. exists [], what. split; reflexivity. Qed.

Lemma ends_well_bind {A B} (m : M Msg A) (f : A -> M Msg B) :
  ends_well m -> (forall a, ends_well (f a)) -> ends_well (bind m f).
Proof.
  unfold ends_well. rewrite bind_trace, bind_result.
  destruct m as [tr [a| |]]; simpl; intros Hm Hf.
  - specialize (Hf a). destruct ((f a).2).
    + rewrite fatals_app, Hm, Hf. reflexivity.
    + destruct Hf as (tr' & what & -> & Hn). exists (tr ++ tr'), what.
      rewrite app_assoc, fatals_app, Hm, Hn. auto.
    + exact Hf.
  - rewrite app_nil_r. exact Hm.
  - exact Hm.
Qed.

Lemma ends_well_emit_bind {B} (e : Event Msg) (f : unit -> M Msg B) :
  fatal_of e = None -> ends_well (f tt) -> ends_well (bind (emit e) f).
Proof.
  intros He Hf. apply ends_well_bind; [unfold ends_well; simpl; rewrite He; reflexivity|].
  intros []. exact Hf.
Qed.

Lemma output_ends_well fl it k msg : ends_well (output fl it k msg).
Proof.
  unfold output. destruct (encoder fl) as [e|].
  - apply ends_well_emit_bind; [reflexivity|].
    destruct (it_encode it k); [|apply ends_well_fatal].
    destruct e; reflexivity.
  - destruct (String.eqb _ _); reflexivity.
Qed.

Lemma candidates_ends_well fl it st k pkts pf : ends_well (candidates fl it st k pkts pf).
Proof.
  revert k pf. induction pkts as [|pkt rest IH]; intros k pf; [reflexivity|].
  destruct (accepted fl pkt) as [scm|] eqn:Ha.
  - rewrite (candidates_cons_accepted _ _ _ _ _ _ _ _ Ha).
    apply ends_well_bind; [apply output_ends_well|]. intros _.
    destruct (single fl); [reflexivity | apply IH].
  - rewrite (candidates_cons_rejected _ _ _ _ _ _ _ Ha). apply IH.
Qed.

Lemma write_samples_ends_well fl it st : ends_well (write_samples (Msg := Msg) fl it st).
Proof.
  unfold write_samples. destruct (capture fl); [|reflexivity].
  apply ends_well_emit_bind; [reflexivity|].
  destruct (it_write it); [reflexivity | apply ends_well_fatal].
Qed.

Lemma iteration_ends_well fl start it st : ends_well (iteration fl start it st).
Proof.
  destruct (next_block fl it st) as [[st1 pkts]|] eqn:Hn.
  - rewrite (iteration_block _ start _ _ _ _ Hn).
    apply ends_well_emit_bind; [reflexivity|].
    apply ends_well_bind; [apply candidates_ends_well|]. intros [|]; [|reflexivity].
    apply ends_well_bind; [apply write_samples_ends_well|]. intros st2.
    destruct (single fl); reflexivity.
  - destruct (iteration_no_block fl start it st Hn) as [-> | [-> | (_ & _ & ->)]];
      try reflexivity.
    exists [EvRead false], ErrReadingSamples. split; reflexivity.
Qed.

Lemma loop_ends_well fl start script st : ends_well (loop fl start script st).
Proof.
  revert st. induction script as [|it rest IH]; intros st; [reflexivity|].
  cbn [loop]. apply ends_well_bind; [apply iteration_ends_well|].
  intros [st'|]; [apply IH | reflexivity].
Qed.

Lemma deferred_no_fatal fl : fatals (deferred (Msg := Msg) fl) = [].
Proof. unfold deferred. destruct (String.eqb (cpuprofile fl) ""); reflexivity. Qed.

(** X10. The exit status tells how the run went.  Status 0: [Run]
    returned, no fatal error was reported and the deferred closes ran,
    last deferred first.  Status 1: a fatal error is the last event and no
    close was made.  While the loop is still going nothing has been
    closed and nothing fatal reported. *)
Theorem exit_status_tells fl create_ok d pos start script :
  let r := main fl create_ok d pos start script in
  (r.2 = Exited 0 ->
   fatals r.1 = [] /\
   closes r.1 = (if String.eqb (cpuprofile fl) "" then [] else [TheProfile])
                  ++ [TheReceiver; TheSampleFile; TheLogFile]) /\
  (r.2 = Exited 1 ->
   closes r.1 = [] /\
   exists tr what, r.1 = tr ++ [EvFatal what] /\ fatals tr = []) /\
  (r.2 = StillRunning -> closes r.1 = [] /\ fatals r.1 = []).
Proof.
  assert (closes (deferred (Msg := Msg) fl)
          = (if String.eqb (cpuprofile fl) "" then [] else [TheProfile])
              ++ [TheReceiver; TheSampleFile; TheLogFile]) as Hdc.
  { unfold deferred. destruct (String.eqb (cpuprofile fl) ""); reflexivity. }
  simpl. unfold main, Run.
  destruct (negb (String.eqb (cpuprofile fl) "") && negb create_ok).
  { simpl. split; [discriminate|]. split; [|discriminate].
    intros _. split; [reflexivity|]. exists [], ErrCreateProfile. auto. }
  destruct (Go.make (BlockSize2 (Cfg d))) as [blk|].
  2: { simpl. split; [discriminate|]. split; discriminate. }
  set (st := {| block := blk; dec := d; sample_pos := pos |}).
  pose proof (loop_ends_well fl start script st) as Hw.
  pose proof (loop_no_close fl start script st) as Hc.
  unfold ends_well in Hw.
  destruct (loop fl start script st) as [tr [[|st']| |]]; simpl in *.
  - split; [|split; discriminate].
    intros _. rewrite fatals_app, closes_app, Hw, Hc, deferred_no_fatal, Hdc. auto.
  - split; [discriminate|]. split; [discriminate | auto].
  - split; [discriminate|]. split; [|discriminate].
    intros _. split; [exact Hc | exact Hw].
  - contradiction.
Qed.

(** *** The state the loop is left in *)

Lemma iteration_state fl start it st st' :
  (iteration fl start it st).2 = Ok (Some st') ->
  length (block st') = length (block st).
Proof.
  destruct (next_block fl it st) as [[st1 pkts]|] eqn:Hn.
  - rewrite (iteration_block_result _ start _ _ _ _ Hn).
    destruct (next_block_inv _ _ _ _ _ Hn) as (data & _ & _ & _ & Hst).
    assert (length (block st1) = length (block st)) as Hb.
    { rewrite Hst. simpl. apply fill_length. }
    destruct ((candidates fl it st1 0 pkts false).2) as [[]| |]; try discriminate.
    + rewrite write_samples_result.
      destruct (capture fl && negb (it_write it)); [discriminate|].
      destruct (single fl); [discriminate|]. intros [= <-]. exact Hb.
    + intros [= <-]. exact Hb.
  - destruct (iteration_no_block fl start it st Hn) as [-> | [-> | (_ & _ & ->)]];
      discriminate.
Qed.

Lemma loop_state fl start script st st' :
  (loop fl start script st).2 = Ok (Running st') ->
  length (block st') = length (block st).
Proof.
  revert st. induction script as [|it rest IH]; intros st.
  - simpl. intros [= <-]. reflexivity.
  - rewrite loop_cons_result.
    pose proof (iteration_state fl start it st) as Hblk.
    destruct ((iteration fl start it st).2) as [[st1|]| |]; try discriminate.
    intros Hr. rewrite (IH _ Hr). exact (Hblk st1 eq_refl).
Qed.


(** *** The output formats *)

(** What [main] shows of its trace to an observer blind to closes and to
    the profile error: a part of the trace of [Run], or nothing. *)
Lemma main_seen fl create_ok d pos start script :
  exists tr0,
    (tr0 = [] \/ tr0 = (Run fl d pos start script).1) /\
    forall B (f : Event Msg -> option B),
      (forall r, f (EvClose r) = None) -> f (EvFatal ErrCreateProfile) = None ->
      omap f (main fl create_ok d pos start script).1 = omap f tr0.
Proof.
  destruct (main_trace fl create_ok d pos start script) as [Hm | [Hm | Hm]]; rewrite Hm.
  - exists []. split; [auto|]. intros B f _ Hp. simpl. rewrite Hp. reflexivity.
  - exists (Run fl d pos start script).1. auto.
  - exists (Run fl d pos start script).1. split; [auto|]. intros B f Hc _.
    rewrite omap_app. rewrite (omap_none f (deferred fl)); [apply app_nil_r|].
    apply Forall_forall. intros e He. apply deferred_closes in He as [r ->]. apply Hc.
Qed.

Lemma plain_trace fl tr :
  encoder fl = None ->
  Forall (fun e => allowed fl e = true) tr ->
  encodes tr = [] /\ lines tr = map (plain_line fl) (log_entries tr).
Proof.
  intros He. induction 1 as [|e tr Hall _ (IH1 & IH2)]; [split; reflexivity|].
  unfold encodes, lines, log_entries in *.
  destruct e as [ok|[m|m|] ok|m ok|iq ok|el|what|r]; simpl in *;
    rewrite ?He in Hall; try discriminate; try (split; assumption).
  - apply andb_true_iff in Hall as [Hc _]. unfold capture in Hc.
    apply negb_true_iff, negb_false_iff in Hc.
    split; [exact IH1|]. unfold plain_line at 1. rewrite Hc. f_equal. exact IH2.
  - apply andb_true_iff in Hall as [Hc _]. unfold capture in Hc.
    apply negb_true_iff in Hc.
    split; [exact IH1|]. unfold plain_line at 1. rewrite Hc. f_equal. exact IH2.
Qed.

(** X12. In plain text (no encoder) a run never calls an encoder, and the
    log sink receives exactly one line for each entry, in order: the
    message without the offset when the sample file is [os.DevNull], with
    it otherwise. *)
Theorem plain_text_output fl create_ok d pos start script :
  encoder fl = None ->
  encodes (main fl create_ok d pos start script).1 = [] /\
  lines (main fl create_ok d pos start script).1
  = map (plain_line fl) (log_entries (main fl create_ok d pos start script).1).
Proof.
  intros He.
  destruct (main_seen fl create_ok d pos start script) as (tr0 & Htr0 & Hsee).
  unfold encodes, lines, log_entries.
  rewrite (Hsee _ encode_of (fun _ => eq_refl) eq_refl).
  rewrite (Hsee _ line_of (fun _ => eq_refl) eq_refl).
  rewrite (Hsee _ entry_of (fun _ => eq_refl) eq_refl).
  apply (plain_trace fl tr0 He).
  destruct Htr0 as [-> | ->]; [constructor | apply Run_allowed].
Qed.

Lemma structured_trace fl tr e :
  encoder fl = Some e ->
  Forall (fun ev => allowed fl ev = true) tr ->
  map fst (encodes tr) = log_entries tr /\
  lines tr = replicate (length (lines tr)) EmptyLine /\
  (e = OtherEncoder -> lines tr = []).
Proof.
  intros He. induction 1 as [|ev tr Hall _ (IH1 & IH2 & IH3)]; [repeat split|].
  unfold encodes, lines, log_entries in *.
  destruct ev as [ok|[m|m|] ok|m ok|iq ok|el|what|r]; simpl in *;
    rewrite ?He in Hall; try discriminate; try (repeat split; assumption).
  - split; [exact IH1|]. split; [f_equal; exact IH2|].
    intros ->. discriminate.
  - split; [f_equal; exact IH1|]. split; [exact IH2 | exact IH3].
Qed.

Lemma encoded_app tr1 tr2 : encoded (tr1 ++ tr2) = encoded tr1 ++ encoded tr2.
Proof. apply omap_app. Qed.

Lemma lines_app tr1 tr2 : lines (tr1 ++ tr2) = lines tr1 ++ lines tr2.
Proof. apply omap_app. Qed.

Lemma xml_output_framed fl it k msg :
  encoder fl = Some XmlEncoder ->
  length (lines (output fl it k msg).1) = length (encoded (output fl it k msg).1).
Proof.
  intros He. unfold output. rewrite He. simpl.
  destruct (it_encode it k); reflexivity.
Qed.

Lemma xml_candidates_framed fl it st k pkts pf :
  encoder fl = Some XmlEncoder ->
  length (lines (candidates fl it st k pkts pf).1)
  = length (encoded (candidates fl it st k pkts pf).1).
Proof.
  intros He. revert k pf. induction pkts as [|pkt rest IH]; intros k pf; [reflexivity|].
  destruct (accepted fl pkt) as [scm|] eqn:Ha.
  - rewrite (candidates_cons_accepted _ _ _ _ _ _ _ _ Ha), bind_trace.
    rewrite lines_app, encoded_app, !length_app, (xml_output_framed _ _ _ _ He).
    destruct ((output fl it k (log_message it st k scm)).2); try reflexivity.
    destruct (single fl); [reflexivity|]. rewrite IH. reflexivity.
  - rewrite (candidates_cons_rejected _ _ _ _ _ _ _ Ha). apply IH.
Qed.

Lemma write_samples_no_line fl it st :
  lines (write_samples (Msg := Msg) fl it st).1 = [] /\
  encoded (write_samples (Msg := Msg) fl it st).1 = [].
Proof.
  unfold write_samples. destruct (capture fl); [|split; reflexivity].
  simpl. destruct (it_write it); split; reflexivity.
Qed.

Lemma xml_iteration_framed fl start it st :
  encoder fl = Some XmlEncoder ->
  length (lines (iteration fl start it st).1)
  = length (encoded (iteration fl start it st).1).
Proof.
  intros He. destruct (next_block fl it st) as [[st1 pkts]|] eqn:Hn.
  - rewrite (iteration_block_trace _ start _ _ _ _ Hn).
    change (EvRead true :: ?t) with ([EvRead (Msg := Msg) true] ++ t).
    rewrite !lines_app, !encoded_app, !length_app, (xml_candidates_framed _ _ _ _ _ _ He).
    destruct (write_samples_no_line fl it st1) as (Hl & Hc).
    destruct ((candidates fl it st1 0 pkts false).2) as [[]| |]; rewrite ?Hl, ?Hc;
      reflexivity.
  - destruct (iteration_no_block fl start it st Hn) as [-> | [-> | (_ & _ & ->)]];
      reflexivity.
Qed.

Lemma xml_loop_framed fl start script st :
  encoder fl = Some XmlEncoder ->
  length (lines (loop fl start script st).1)
  = length (encoded (loop fl start script st).1).
Proof.
  intros He. revert st. induction script as [|it rest IH]; intros st; [reflexivity|].
  rewrite loop_cons_trace, lines_app, encoded_app, !length_app.
  rewrite (xml_iteration_framed _ _ _ _ He).
  destruct ((iteration fl start it st).2) as [[st'|]| |]; try reflexivity.
  rewrite IH. reflexivity.
Qed.

(** X13. With a structured encoder every entry goes through
    [encoder.Encode], in order, and plain lines are never printed.  Behind
    the XML encoder the log sink receives one empty line for each record
    encoded without error and none for a failed one; behind any other
    encoder it receives nothing from [fmt.Fprintln]. *)
Theorem structured_output fl create_ok d pos start script e :
  encoder fl = Some e ->
  map fst (encodes (main fl create_ok d pos start script).1)
  = log_entries (main fl create_ok d pos start script).1 /\
  lines (main fl create_ok d pos start script).1
  = match e with
    | XmlEncoder =>
        replicate (length (encoded (main fl create_ok d pos start script).1)) EmptyLine
    | OtherEncoder => []
    end.
Proof.
  intros He.
  destruct (main_seen fl create_ok d pos start script) as (tr0 & Htr0 & Hsee).
  unfold encodes, lines, log_entries, encoded.
  rewrite (Hsee _ encode_of (fun _ => eq_refl) eq_refl).
  rewrite (Hsee _ line_of (fun _ => eq_refl) eq_refl).
  rewrite (Hsee _ entry_of (fun _ => eq_refl) eq_refl).
  rewrite (Hsee _ encoded_of (fun _ => eq_refl) eq_refl).
  assert (Forall (fun ev => allowed fl ev = true) tr0) as Hall.
  { destruct Htr0 as [-> | ->]; [constructor | apply Run_allowed]. }
  destruct (structured_trace fl tr0 e He Hall) as (H1 & H2 & H3).
  split; [exact H1|]. destruct e; [|exact (H3 eq_refl)].
  fold (lines tr0). rewrite H2. f_equal. fold (encoded tr0).
  destruct Htr0 as [-> | ->]; [reflexivity|].
  unfold Run. destruct (Go.make (BlockSize2 (Cfg d))); [|reflexivity].
  apply xml_loop_framed, He.
Qed.

End MoreProperties.

(** ** The Offsets and the sample file *)

Section AnyFileProperties.

Context {Msg D F : Type} `{!Message Msg, !Parser Msg, !Decoder D, !SampleFile F}.

Implicit Types (fl : Flags) (it : Iter) (k : nat).
Implicit Types (pkt : Packet) (pkts : list Packet).
Implicit Types (tr : list (Event Msg)) (msg : LogMessage Msg).

Lemma through_bind {A B C} (g : B -> C) (m : M Msg A) (f : A -> M Msg B) :
  through g (bind m f) = bind m (fun a => through g (f a)).
Proof.
  destruct m as [t [a| |]]; simpl; try reflexivity.
  unfold through. destruct (f a) as [t' r]. reflexivity.
Qed.

Lemma bind_through {A B C} (g : A -> B) (m : M Msg A) (f : B -> M Msg C) :
  bind (through g m) f = bind m (fun a => f (g a)).
Proof. destruct m as [t [a| |]]; reflexivity. Qed.

(** *** On a regular file [Run_on] is [Run]

    Until the write of samples the two loops do the same whatever the
    file is; the write keeps them together when it moves the position
    that [Seek] reports by the bytes written. *)

Lemma candidate_on_regular fl it (st : StateOn D F) k pkt :
  candidate_on fl it st k pkt = candidate fl it (regular st) k pkt.
Proof. reflexivity. Qed.

Lemma candidates_on_regular fl it (st : StateOn D F) k pkts pf :
  candidates_on fl it st k pkts pf = candidates fl it (regular st) k pkts pf.
Proof.
  revert k pf. induction pkts as [|pkt rest IH]; intros k pf; [reflexivity|].
  cbn [candidates_on candidates]. rewrite candidate_on_regular.
  apply bind_ext. intros [|]; [destruct (single fl); [reflexivity | apply IH] | apply IH].
Qed.

Lemma write_samples_on_regular fl it (st : StateOn D F) :
  (forall (g : F) iq, Seek (Write g iq) = (Seek g + Z.of_nat (length iq))%Z) ->
  through regular (write_samples_on (Msg := Msg) fl it st)
  = write_samples fl it (regular st).
Proof.
  intros Hlaw. unfold write_samples_on, write_samples.
  destruct (capture fl); [|reflexivity].
  destruct (it_write it); [|reflexivity].
  unfold through, regular. simpl. rewrite Hlaw. reflexivity.
Qed.

Lemma iteration_on_regular fl start it (st : StateOn D F) :
  (forall (g : F) iq, Seek (Write g iq) = (Seek g + Z.of_nat (length iq))%Z) ->
  through (option_map regular) (iteration_on fl start it st)
  = iteration fl start it (regular st).
Proof.
  intros Hlaw. unfold iteration_on, iteration.
  destruct (select fl it); try reflexivity.
  destruct (it_read it) as [data|]; [|reflexivity].
  rewrite through_bind. apply bind_ext. intros _.
  cbn [regular block dec sample_pos].
  destruct (Decode (dec_on st) (Go.fill (block_on st) data)) as [d' pkts].
  rewrite through_bind, candidates_on_regular.
  apply bind_ext. intros [|]; [|reflexivity].
  pose proof (write_samples_on_regular fl it
                {| block_on := Go.fill (block_on st) data; dec_on := d';
                   file := file st |} Hlaw) as Hws.
  unfold regular at 2 in Hws. cbn [block_on dec_on file] in Hws.
  rewrite through_bind, <- Hws, bind_through.
  apply bind_ext. intros st2. destruct (single fl); reflexivity.
Qed.

Lemma loop_on_regular fl start script (st : StateOn D F) :
  (forall (g : F) iq, Seek (Write g iq) = (Seek g + Z.of_nat (length iq))%Z) ->
  through regular_outcome (loop_on fl start script st)
  = loop fl start script (regular st).
Proof.
  intros Hlaw. revert st. induction script as [|it rest IH]; intros st; [reflexivity|].
  cbn [loop_on loop].
  rewrite through_bind, <- (iteration_on_regular _ _ _ _ Hlaw), bind_through.
  apply bind_ext. intros [st'|]; [apply IH | reflexivity].
Qed.

Lemma Run_on_regular fl d (f : F) start script :
  (forall (g : F) iq, Seek (Write g iq) = (Seek g + Z.of_nat (length iq))%Z) ->
  through regular_outcome (Run_on fl d f start script)
  = Run fl d (Seek f) start script.
Proof.
  intros Hlaw. unfold Run_on, Run.
  destruct (Go.make (BlockSize2 (Cfg d))) as [blk|]; [|reflexivity].
  exact (loop_on_regular fl start script
           {| block_on := blk; dec_on := d; file := f |} Hlaw).
Qed.

(** *** Every write comes after the entries of its block *)

Lemma appends_entries p es tr rest :
  sample_writes tr = [] ->
  reads tr = [] ->
  appends_at_offsets p es false (tr ++ rest)
  = appends_at_offsets p (es ++ log_entries tr) false rest.
Proof.
  revert es. induction tr as [|e tr IH]; intros es Hw Hr.
  - simpl. rewrite app_nil_r. reflexivity.
  - destruct e as [ok|[m|m|] ok|m ok|iq ok|el|what|r]; try discriminate.
    + change (appends_at_offsets p (es ++ [m]) false (tr ++ rest)
              = appends_at_offsets p (es ++ m :: log_entries tr) false rest).
      rewrite (IH _ Hw Hr), <- app_assoc. reflexivity.
    + change (appends_at_offsets p (es ++ [m]) false (tr ++ rest)
              = appends_at_offsets p (es ++ m :: log_entries tr) false rest).
      rewrite (IH _ Hw Hr), <- app_assoc. reflexivity.
    + exact (IH _ Hw Hr).
    + change (appends_at_offsets p (es ++ [m]) false (tr ++ rest)
              = appends_at_offsets p (es ++ m :: log_entries tr) false rest).
      rewrite (IH _ Hw Hr), <- app_assoc. reflexivity.
    + exact (IH _ Hw Hr).
    + exact (IH _ Hw Hr).
    + exact (IH _ Hw Hr).
Qed.

Lemma offsets_forallb p (es : list (LogMessage Msg)) :
  Forall (fun msg => Offset msg = p) es ->
  forallb (fun msg => (Offset msg =? p)%Z) es = true.
Proof.
  induction 1 as [|msg l Hm _ IH]; [reflexivity|].
  simpl. rewrite IH, andb_true_r. apply Z.eqb_eq. exact Hm.
Qed.

Lemma iteration_appends fl start it (st : State D) es a (rest : State D -> list (Event Msg)) :
  (forall st' es' a',
     (iteration fl start it st).2 = Ok (Some st') ->
     appends_at_offsets (sample_pos st') es' a' (rest st') = true) ->
  appends_at_offsets (sample_pos st) es a
    ((iteration fl start it st).1 ++
     match (iteration fl start it st).2 with
     | Ok (Some st') => rest st'
     | _ => []
     end) = true.
Proof.
  destruct (next_block fl it st) as [[st1 pkts]|] eqn:Hn.
  - destruct (next_block_inv _ _ _ _ _ Hn) as (data & _ & _ & _ & Hst).
    assert (sample_pos st1 = sample_pos st) as Hpos by (rewrite Hst; reflexivity).
    rewrite (iteration_block_trace _ start _ _ _ _ Hn).
    rewrite (iteration_block_result _ start _ _ _ _ Hn).
    pose proof (candidates_offsets fl it st1 0 pkts false) as Ho.
    pose proof (candidates_no_write fl it st1 0 pkts false) as Hw.
    pose proof (candidates_no_read fl it st1 0 pkts false) as Hr.
    pose proof (candidates_found_entry fl it st1 0 pkts) as Hf.
    rewrite Hpos in Ho. clear Hn Hst.
    set (c := (candidates fl it st1 0 pkts false).1) in *.
    intros Hrest.
    change (appends_at_offsets (sample_pos st) es a ((EvRead true :: ?t) ++ ?u))
      with (appends_at_offsets (sample_pos st) [] false (t ++ u)).
    rewrite <- app_assoc, (appends_entries _ _ _ _ Hw Hr). cbn [app].
    destruct ((candidates fl it st1 0 pkts false).2) as [[]| |].
    + unfold write_samples in *. destruct (capture fl).
      * assert (log_entries c <> []) as Hne by (apply Hf; reflexivity).
        assert ((0 <? length (log_entries c)) = true) as Hlen.
        { apply Nat.ltb_lt. destruct (log_entries c); [contradiction | simpl; lia]. }
        destruct (it_write it); simpl in Hrest |- *;
          rewrite Hlen, (offsets_forallb _ _ Ho); simpl.
        -- destruct (single fl); [reflexivity|]. simpl. rewrite <- Hpos.
           apply (Hrest {| block := block st1; dec := dec st1;
                           sample_pos := (sample_pos st1
                                          + Z.of_nat (length (IQ (dec st1))))%Z |}).
           reflexivity.
        -- reflexivity.
      * simpl in Hrest |- *. destruct (single fl); [reflexivity|]. simpl.
        rewrite <- Hpos. apply Hrest. reflexivity.
    + simpl. rewrite <- Hpos. apply Hrest. reflexivity.
    + reflexivity.
    + reflexivity.
  - intros _.
    destruct (iteration_no_block fl start it st Hn) as [-> | [-> | (_ & _ & ->)]];
      reflexivity.
Qed.

Lemma loop_appends fl start script (st : State D) es a :
  appends_at_offsets (sample_pos st) es a (loop fl start script st).1 = true.
Proof.
  revert st es a. induction script as [|it rest IH]; intros st es a; [reflexivity|].
  rewrite loop_cons_trace.
  apply (iteration_appends fl start it st es a (fun st' => (loop fl start rest st').1)).
  intros st' es' a' _. apply IH.
Qed.


End AnyFileProperties.

(** ** Properties of the start-up *)

Section StartupProperties.

Context {Msg D : Type} `{!Message Msg, !Decoder D}.

Variable ToLower : string -> string.
Variable NewDecoder : Protocol -> Z -> bool -> D.
Variable SampleRate : D -> Z.
Variable parsers : Protocol -> Parser Msg.

Lemma visit_centerfreq s name :
  centerfreqFlagSet (visit s name) = centerfreqFlagSet s || String.eqb name "centerfreq".
Proof.
  unfold visit. destruct (String.eqb name "centerfreq"); simpl;
    [rewrite orb_true_r; reflexivity|].
  rewrite orb_false_r.
  destruct (String.eqb name "samplerate"); [reflexivity|].
  destruct (_ || _); reflexivity.
Qed.

Lemma visit_samplerate s name :
  sampleRateFlagSet (visit s name) = sampleRateFlagSet s || String.eqb name "samplerate".
Proof.
  unfold visit. destruct (String.eqb name "centerfreq") eqn:Hc; simpl.
  - apply String.eqb_eq in Hc. subst name. simpl. rewrite orb_false_r. reflexivity.
  - destruct (String.eqb name "samplerate"); simpl;
      [rewrite orb_true_r; reflexivity|].
    rewrite orb_false_r. destruct (_ || _); reflexivity.
Qed.

Lemma visit_gain s name :
  gainFlagSet (visit s name)
  = gainFlagSet s || existsb (String.eqb name) gain_flags.
Proof.
  unfold visit, gain_flags. destruct (String.eqb name "centerfreq") eqn:Hc; simpl.
  - apply String.eqb_eq in Hc. subst name. simpl. rewrite orb_false_r. reflexivity.
  - destruct (String.eqb name "samplerate") eqn:Hs; simpl.
    + apply String.eqb_eq in Hs. subst name. simpl. rewrite orb_false_r. reflexivity.
    + rewrite orb_false_r.
      destruct (String.eqb name "gainbyindex"), (String.eqb name "tunergainmode"),
        (String.eqb name "tunergain"), (String.eqb name "agcmode"); simpl;
        rewrite ?orb_true_r, ?orb_false_r; reflexivity.
Qed.

Lemma existsb_eqb_elem_of (name : string) (l : list string) :
  existsb (String.eqb name) l = true <-> name ∈ l.
Proof.
  induction l as [|x l IH]; simpl.
  - split; [discriminate | intros Hin; apply elem_of_nil in Hin; contradiction].
  - rewrite orb_true_iff, IH, elem_of_cons, String.eqb_eq. reflexivity.
Qed.

Lemma foldl_visit s names :
  centerfreqFlagSet (foldl visit s names)
  = centerfreqFlagSet s || existsb (fun name => String.eqb name "centerfreq") names /\
  sampleRateFlagSet (foldl visit s names)
  = sampleRateFlagSet s || existsb (fun name => String.eqb name "samplerate") names /\
  gainFlagSet (foldl visit s names)
  = gainFlagSet s || existsb (fun name => existsb (String.eqb name) gain_flags) names.
Proof.
  revert s. induction names as [|name names IH]; intros s.
  - simpl. rewrite !orb_false_r. auto.
  - cbn [foldl existsb]. destruct (IH (visit s name)) as (-> & -> & ->).
    rewrite visit_centerfreq, visit_samplerate, visit_gain, !orb_assoc. auto.
Qed.

Lemma existsb_named (x : string) (names : list string) :
  existsb (fun name => String.eqb name x) names = true <-> x ∈ names.
Proof.
  induction names as [|name names IH]; simpl.
  - split; [discriminate | intros Hin; apply elem_of_nil in Hin; contradiction].
  - rewrite orb_true_iff, IH, elem_of_cons, String.eqb_eq.
    split; (intros [Hx | Hx]; [left; symmetry; exact Hx | right; exact Hx]).
Qed.

Lemma existsb_gain (names : list string) :
  existsb (fun name => existsb (String.eqb name) gain_flags) names = true <->
  Exists (fun name => name ∈ gain_flags) names.
Proof.
  induction names as [|name names IH]; simpl.
  - rewrite Exists_nil. split; [discriminate | contradiction].
  - rewrite Exists_cons, <- IH, <- existsb_eqb_elem_of.
    apply orb_true_iff.
Qed.

(** What [flag.Visit] leaves in the three variables. *)
Lemma Visit_spec names :
  (centerfreqFlagSet (Visit names) = true <-> "centerfreq" ∈ names) /\
  (sampleRateFlagSet (Visit names) = true <-> "samplerate" ∈ names) /\
  (gainFlagSet (Visit names) = true <-> Exists (fun name => name ∈ gain_flags) names).
Proof.
  unfold Visit.
  destruct (foldl_visit {| centerfreqFlagSet := false; sampleRateFlagSet := false;
                           gainFlagSet := false |} names) as (-> & -> & ->).
  simpl. split; [apply existsb_named|]. split; [apply existsb_named | apply existsb_gain].
Qed.

Lemma tunings_app tr1 tr2 : tunings (tr1 ++ tr2) = tunings tr1 ++ tunings tr2.
Proof. apply omap_app. Qed.

(** X14. Once connected, [NewReceiver] tunes the device only where the
    command line left a setting alone, in this order: the centre
    frequency unless [-centerfreq] was given, the decoder's sample rate
    unless [-samplerate] was given, and the automatic gain unless one of
    the four gain flags was given; quiet or not. *)
Theorem default_tuning su p :
  protocol_of (ToLower (msgType su)) = Some p ->
  connect_ok su = true ->
  tunings (NewReceiver ToLower NewDecoder SampleRate su).1
  = (if decide ("centerfreq" ∈ visited su) then []
     else [SuSetCenterFreq (centerFreq su)])
    ++ (if decide ("samplerate" ∈ visited su) then []
        else [SuSetSampleRate
                (uint32_of_int
                   (SampleRate (NewDecoder p (symbolLength su) (fastMag su))))])
    ++ (if decide (Exists (fun name => name ∈ gain_flags) (visited su)) then []
        else [SuSetGainMode true]).
Proof.
  intros Hp Hc. unfold NewReceiver. rewrite Hp, Hc. cbv zeta. cbn [fst].
  destruct (Visit_spec (visited su)) as (H1 & H2 & H3).
  rewrite !tunings_app.
  assert (tunings (if quiet_ su then [] else [SuLogConfig p; SuLogCRC p]) = []) as ->
    by (destruct (quiet_ su); reflexivity).
  assert (tunings (if quiet_ su then [] else [SuLogGainCount]) = []) as ->
    by (destruct (quiet_ su); reflexivity).
  simpl. f_equal; [|f_equal].
  - destruct (centerfreqFlagSet (Visit (visited su))) eqn:Hv; case_decide;
      try reflexivity.
    + exfalso. apply H. apply H1. reflexivity.
    + apply H1 in H. congruence.
  - destruct (sampleRateFlagSet (Visit (visited su))) eqn:Hv; case_decide;
      try reflexivity.
    + exfalso. apply H. apply H2. reflexivity.
    + apply H2 in H. congruence.
  - destruct (gainFlagSet (Visit (visited su))) eqn:Hv; case_decide;
      try reflexivity.
    + exfalso. apply H. apply H3. reflexivity.
    + apply H3 in H. congruence.
Qed.

Lemma run_events_inl (tr : list SetupEvent) :
  run_events (Msg := Msg) (map inl tr) = [] /\
  setup_events (Msg := Msg) (map inl tr) = tr.
Proof.
  unfold run_events, setup_events.
  induction tr as [|e tr (IH1 & IH2)]; [split; reflexivity|].
  simpl. split; [exact IH1 | f_equal; exact IH2].
Qed.

(** X15. A start-up that fails ends the process with status 1 before the
    loop is entered: an unknown message type is reported before anything
    else is done (no connection is tried), a refused connection before
    the flags are applied; in both cases the device is not tuned, nothing
    is read and nothing is closed. *)
Theorem startup_failure_is_fatal su fl create_ok pos start script :
  protocol_of (ToLower (msgType su)) = None \/ connect_ok su = false ->
  let r := program ToLower NewDecoder SampleRate parsers su fl create_ok pos start script in
  r.2 = Exited 1 /\
  run_events r.1 = [] /\
  tunings (setup_events r.1) = [] /\
  (SuHandleFlags ∉ setup_events r.1) /\
  (protocol_of (ToLower (msgType su)) = None ->
   r.1 = [inl (SuFatal (InvalidMessageType (msgType su)))]).
Proof.
  intros Hfail. simpl. unfold program, NewReceiver.
  destruct (protocol_of (ToLower (msgType su))) as [p|] eqn:Hp.
  - destruct Hfail as [Hf | Hc]; [discriminate|]. rewrite Hc. simpl.
    destruct (run_events_inl
                ((if quiet_ su then [] else [SuLogConfig p; SuLogCRC p])
                   ++ [SuConnect false; SuFatal ConnectFailed])) as (Hr & Hs).
    rewrite Hr, Hs. split; [reflexivity|]. split; [reflexivity|].
    split; [|split; [|discriminate]].
    + destruct (quiet_ su); reflexivity.
    + intros Hin. destruct (quiet_ su); simpl in Hin;
        repeat (apply elem_of_cons in Hin as [Hin | Hin]; [discriminate|]);
        apply elem_of_nil in Hin; contradiction.
  - simpl. split; [reflexivity|]. split; [reflexivity|]. split; [reflexivity|].
    split; [|reflexivity].
    intros Hin. apply list_elem_of_singleton in Hin. discriminate.
Qed.

End StartupProperties.

(** ** The properties at work on the test bench *)

Section OnTheBench.

Import Bench FileBench.

(** C1 on the bench: the set of identifiers holds 5, the set of types is
    empty; the candidate of meter 5 is logged. *)
Lemma filter_accepts_iff_witness :
  Parse [x05; x07] = Some (5%N, 7%N) /\
  log_entries (candidate only_meter_5 (reading one_meter) st0 0 [x05; x07]).1
  = [log_message (reading one_meter) st0 0 (5%N, 7%N)].
Proof.
  split; [reflexivity|].
  apply (filter_accepts_iff only_meter_5 (reading one_meter) st0 0 [x05; x07] (5%N, 7%N));
    [reflexivity|].
  split; [right; reflexivity | left; reflexivity].
Defined.

(** C2 refuted as stated: behind a structured encoder both messages of a
    block are accepted and the first is encoded, but [Encode] fails on the
    second; [log.Fatal] ends the process with status 1 before the write
    of line 186 is reached, and the capture file gets nothing for that
    block. *)
Lemma encode_failure_leaves_no_capture_write :
  capture json = true /\
  next_block json (FileBench.reading_second_encode_fails two_meters) st0
  = Some (after two_meters, pairs two_meters) /\
  map fst (accepted_from json 0 (pairs two_meters)) = [0; 1] /\
  main json true d0 0 0 [FileBench.reading_second_encode_fails two_meters]
  = ([EvRead true;
      EvEncode (log_message (FileBench.reading_second_encode_fails two_meters)
                  (after two_meters) 0 (5%N, 7%N)) true;
      EvEncode (log_message (FileBench.reading_second_encode_fails two_meters)
                  (after two_meters) 1 (6%N, 7%N)) false;
      EvFatal ErrEncodingMessage], Exited 1) /\
  sample_writes
    (iteration json 0 (FileBench.reading_second_encode_fails two_meters) st0).1 = [].
Proof. repeat split. Qed.

(** C2 on the bench: two accepted messages in a block, one write. *)
Lemma capture_write_once_witness :
  capture plain = true /\
  next_block plain (reading two_meters) st0 = Some (after two_meters, pairs two_meters) /\
  map fst (accepted_from plain 0 (pairs two_meters)) = [0; 1] /\
  sample_writes (iteration plain 0 (reading two_meters) st0).1 = [two_meters].
Proof.
  assert (next_block plain (reading two_meters) st0
          = Some (after two_meters, pairs two_meters)) as Hn by reflexivity.
  split; [reflexivity|]. split; [exact Hn|]. split; [reflexivity|].
  destruct (capture_write_once plain 0 (reading two_meters) st0
              (after two_meters) (pairs two_meters) eq_refl Hn) as (_ & _ & Hone & _).
  apply Hone; [vm_compute; discriminate|].
  apply candidates_survive. left. reflexivity.
Defined.

(** C3 on the bench: two blocks of noise, then one with two meters; what
    follows (a failing read) is never reached. *)
Lemma single_shot_stops_at_first_match_witness :
  (main plain_single true d0 0 0
     [reading noise; reading noise; reading two_meters; failing]).2 = Exited 0 /\
  reads (main plain_single true d0 0 0
     [reading noise; reading noise; reading two_meters; failing]).1
  = [true; true; true].
Proof.
  assert (quiet plain_single [reading noise; reading noise]
            {| block := [x00; x00; x00; x00]; dec := d0; sample_pos := 0 |}
          = Some (after noise)) as Hq by reflexivity.
  assert (next_block plain_single (reading two_meters) (after noise)
          = Some (after two_meters, pairs two_meters)) as Hn by reflexivity.
  assert (accepted_from plain_single 0 (pairs two_meters)
          = (0, (5%N, 7%N)) :: [(1, (6%N, 7%N))]) as Ha by reflexivity.
  pose proof (single_shot_stops_at_first_match plain_single true d0 0 0
                [reading noise; reading noise] (reading two_meters) [failing]
                [x00; x00; x00; x00] (after noise) (after two_meters)
                (pairs two_meters) 0 (5%N, 7%N) [(1, (6%N, 7%N))]
                eq_refl (or_introl eq_refl) eq_refl Hq Hn Ha
                (fun _ => eq_refl) (fun _ => eq_refl)) as (Hrun & Hreads & _).
  split; [exact (f_equal snd Hrun) | exact Hreads].
Defined.

(** C4: in single-shot mode the second accepted candidate of the block is
    not written, in normal mode it is. *)
Lemma single_shot_skips_later_candidates :
  map snd (accepted_from plain_single 0 (pairs two_meters)) = [(5%N, 7%N); (6%N, 7%N)] /\
  map Message_ (log_entries (iteration plain_single 0 (reading two_meters) st0).1)
  = [(5%N, 7%N)] /\
  map Message_ (log_entries (iteration plain 0 (reading two_meters) st0).1)
  = [(5%N, 7%N); (6%N, 7%N)].
Proof. repeat split. Qed.

(** C4, amended, on the bench. *)
Lemma single_shot_breaks_at_first_match_witness :
  single plain_single = true /\
  accepted_from plain_single 0 (pairs two_meters) = [(0, (5%N, 7%N)); (1, (6%N, 7%N))] /\
  log_entries (candidates plain_single (reading two_meters) (after two_meters) 0
                 (pairs two_meters) false).1
  = [log_message (reading two_meters) (after two_meters) 0 (5%N, 7%N)].
Proof.
  assert (accepted_from plain_single 0 (pairs two_meters)
          = (0, (5%N, 7%N)) :: [(1, (6%N, 7%N))]) as Ha by reflexivity.
  split; [reflexivity|]. split; [exact Ha|].
  exact (proj2 (proj2 (single_shot_breaks_at_first_match plain_single
           (reading two_meters) (after two_meters) 0 (pairs two_meters) false 0
           (5%N, 7%N) [(1, (6%N, 7%N))] eq_refl Ha))).
Defined.

(** C5: after a failed read the process ends with status 1 and no close
    has been attempted; when the loop returns on a signal, the three
    deferred closes run. *)
Lemma read_error_skips_deferred_closes :
  main plain true d0 0 0 [reading noise; failing]
  = ([EvRead true; EvRead false; EvFatal ErrReadingSamples], Exited 1) /\
  closes (main plain true d0 0 0 [reading noise; failing]).1 = [] /\
  closes (main plain true d0 0 0 [reading noise; interrupted]).1
  = [TheReceiver; TheSampleFile; TheLogFile].
Proof. repeat split. Qed.

(** C5, amended, on the bench. *)
Lemma read_error_is_fatal_witness :
  EvRead false ∈ (main plain true d0 0 0 [reading noise; failing]).1 /\
  (main plain true d0 0 0 [reading noise; failing]).2 = Exited 1 /\
  closes (main plain true d0 0 0 [reading noise; failing]).1 = [].
Proof.
  assert (EvRead false ∈ (main plain true d0 0 0 [reading noise; failing]).1) as He.
  { change (EvRead false ∈ [EvRead (Msg := Msg) true; EvRead false;
                            EvFatal ErrReadingSamples]).
    apply list_elem_of_further, list_elem_of_here. }
  split; [exact He|].
  exact (proj2 (read_error_is_fatal plain true d0 0 0 [reading noise; failing] He)).
Defined.

(** C6: in plain text a write refused by the log sink goes unnoticed: the
    loop writes the samples, reads on, and the process ends with status
    zero on the signal. *)
Lemma plain_text_write_failure_is_not_fatal :
  main plain true d0 0 0 [reading_sink_down one_meter; reading noise; interrupted]
  = ([EvRead true;
      EvFprintln (StringOf {| Time := 0; Offset := 0; Length := 4;
                              Message_ := (5%N, 7%N) |}) false;
      EvSampleWrite one_meter true;
      EvRead true;
      EvClose TheReceiver; EvClose TheSampleFile; EvClose TheLogFile],
     Exited 0).
Proof. reflexivity. Qed.

(** C6, amended, on the bench. *)
Lemma encode_failure_is_fatal_witness :
  EvEncode (log_message (reading_sink_down one_meter) (after one_meter) 0 (5%N, 7%N)) false
    ∈ (main json true d0 0 0 [reading_sink_down one_meter; reading noise]).1 /\
  (main json true d0 0 0 [reading_sink_down one_meter; reading noise]).2 = Exited 1.
Proof.
  assert (EvEncode (log_message (reading_sink_down one_meter) (after one_meter) 0
                      (5%N, 7%N)) false
          ∈ (main json true d0 0 0 [reading_sink_down one_meter; reading noise]).1) as He.
  { change (EvEncode (log_message (reading_sink_down one_meter) (after one_meter) 0
                        (5%N, 7%N)) false
            ∈ [EvRead true;
               EvEncode (log_message (reading_sink_down one_meter) (after one_meter) 0
                           (5%N, 7%N)) false;
               EvFatal ErrEncodingMessage]).
    apply list_elem_of_further, list_elem_of_here. }
  split; [exact He|].
  exact (proj2 (encode_failure_is_fatal json true d0 0 0
           [reading_sink_down one_meter; reading noise] _ He)).
Defined.

(** C7 on the bench: a block of noise. *)
Lemma parse_failures_are_silent_witness :
  next_block plain (reading noise) st0 = Some (after noise, pairs noise) /\
  Forall (fun pkt => Parse pkt = None) (pairs noise) /\
  iteration plain 0 (reading noise) st0 = ([EvRead true], Ok (Some (after noise))).
Proof.
  assert (Forall (fun pkt => Parse pkt = None) (pairs noise)) as Hall.
  { repeat constructor. }
  assert (next_block plain (reading noise) st0
          = Some (after noise, pairs noise)) as Hn by reflexivity.
  split; [exact Hn|]. split; [exact Hall|].
  exact (proj1 (proj2 (parse_failures_are_silent plain 0 (reading noise) st0
           (after noise) (pairs noise) [] Hn Hall))).
Defined.



(** C9: the block has 8192 bytes, the entry says 36224. *)
Lemma entry_length_is_not_block_length :
  option_map (fun blk => Z.of_nat (length blk)) (Go.make (BlockSize2 (Cfg d1)))
  = Some 8192%Z /\
  map Length (log_entries (main plain true d1 0 0 [reading one_meter; interrupted]).1)
  = [36224%Z].
Proof. split; vm_compute; reflexivity. Qed.

(** C9, amended, on the bench. *)
Lemma entry_length_is_buffer_length_witness :
  next_block plain (reading two_meters) st0 = Some (after two_meters, pairs two_meters) /\
  Forall (fun msg => Length msg = 4%Z)
    (log_entries (iteration plain 0 (reading two_meters) st0).1).
Proof.
  assert (next_block plain (reading two_meters) st0
          = Some (after two_meters, pairs two_meters)) as Hn by reflexivity.
  split; [exact Hn|].
  exact (proj1 (entry_length_is_buffer_length plain 0 (reading two_meters) st0
           (after two_meters) (pairs two_meters) Hn)).
Defined.

(** C10 on the bench: two entries, one Offset. *)
Lemma block_entries_share_offset_witness :
  single plain = false /\
  next_block plain (reading two_meters) st0 = Some (after two_meters, pairs two_meters) /\
  map Message_ (log_entries (iteration plain 0 (reading two_meters) st0).1)
  = [(5%N, 7%N); (6%N, 7%N)] /\
  Forall (fun msg => Offset msg = 0%Z)
    (log_entries (iteration plain 0 (reading two_meters) st0).1).
Proof.
  assert (next_block plain (reading two_meters) st0
          = Some (after two_meters, pairs two_meters)) as Hn by reflexivity.
  split; [reflexivity|]. split; [exact Hn|]. split; [reflexivity|].
  exact (proj1 (block_entries_share_offset plain 0 (reading two_meters) st0
           (after two_meters) (pairs two_meters) eq_refl Hn)).
Defined.

End OnTheBench.

(** ** The further properties at work on the test bench *)

Section MoreOnTheBench.

Import Bench MoreBench StartupBench.

(** X2 on the bench: a block with a match, then the signal. *)
Lemma pending_interrupt_stops_witness :
  it_sigint interrupted = true /\
  exists note,
    main plain true d0 0 0 ([reading one_meter] ++ interrupted :: [reading noise])
    = ((Run plain d0 0 0 [reading one_meter]).1 ++ note ++ deferred plain, Exited 0) /\
    (note = [] \/
     (timeLimit plain <> 0%Z /\ it_timer interrupted = true /\
      it_pick interrupted = false /\
      note = [EvTimeLimit (it_clock interrupted - 0)%Z])).
Proof.
  assert (Run plain d0 0 0 [reading one_meter]
          = ((Run plain d0 0 0 [reading one_meter]).1, Ok (Running (captured one_meter))))
    as Hrun by reflexivity.
  split; [reflexivity|].
  exact (pending_interrupt_stops plain true d0 0 0 [reading one_meter] interrupted
           [reading noise] _ _ (or_introl eq_refl) Hrun eq_refl).
Defined.

(** X3 on the bench: a limit of five, the timer found fired at seven. *)
Lemma time_limit_stops_witness :
  timeLimit limited <> 0%Z /\
  main limited true d0 0 0 ([reading one_meter] ++ timed_out :: [reading noise])
  = ((Run limited d0 0 0 [reading one_meter]).1
       ++ [EvTimeLimit 7] ++ deferred limited, Exited 0).
Proof.
  assert (Run limited d0 0 0 [reading one_meter]
          = ((Run limited d0 0 0 [reading one_meter]).1, Ok (Running (captured one_meter))))
    as Hrun by reflexivity.
  assert (timeLimit limited <> 0%Z) as Hl by discriminate.
  split; [exact Hl|].
  exact (time_limit_stops limited true d0 0 0 [reading one_meter] timed_out
           [reading noise] _ _ (or_introl eq_refl) Hrun Hl eq_refl eq_refl).
Defined.

(** X4 on the bench: the timer fires but no limit was set. *)
Lemma no_time_limit_never_fires_witness :
  timeLimit plain = 0%Z /\
  time_limits (main plain true d0 0 0 [reading one_meter; timed_out; interrupted]).1 = [].
Proof.
  split; [reflexivity|].
  exact (no_time_limit_never_fires plain true d0 0 0
           [reading one_meter; timed_out; interrupted] eq_refl).
Defined.

(** X5 on the bench: two matches, the sample file is [os.DevNull]. *)
Lemma no_capture_no_write_witness :
  sampleFilename no_capture = Go.DevNull /\
  length (log_entries (main no_capture true d0 0 0 [reading two_meters; interrupted]).1) = 2 /\
  sample_writes (main no_capture true d0 0 0 [reading two_meters; interrupted]).1 = [].
Proof.
  split; [reflexivity|]. split; [reflexivity|].
  exact (proj1 (no_capture_no_write no_capture true d0 0 0
                  [reading two_meters; interrupted] eq_refl)).
Defined.

(** X7 on the bench: the sample file refuses the write. *)
Lemma sample_write_failure_is_fatal_witness :
  EvSampleWrite one_meter false
    ∈ (main plain true d0 0 0 [reading_disk_full one_meter; reading noise]).1 /\
  (main plain true d0 0 0 [reading_disk_full one_meter; reading noise]).2 = Exited 1.
Proof.
  assert (EvSampleWrite one_meter false
          ∈ (main plain true d0 0 0 [reading_disk_full one_meter; reading noise]).1) as He.
  { change (EvSampleWrite one_meter false
            ∈ [EvRead (Msg := Msg) true;
               EvFprintln (StringOf (log_message (reading_disk_full one_meter)
                                       (after one_meter) 0 (5%N, 7%N))) true;
               EvSampleWrite one_meter false;
               EvFatal ErrWritingSamples]).
    apply list_elem_of_further, list_elem_of_further, list_elem_of_here. }
  split; [exact He|].
  exact (proj2 (sample_write_failure_is_fatal plain true d0 0 0
                  [reading_disk_full one_meter; reading noise] _ He)).
Defined.

(** X9 on the bench: four matching candidates in two blocks. *)
Lemma single_shot_one_entry_witness :
  single plain_single = true /\
  length (log_entries (main plain_single true d0 0 0
                         [reading two_meters; reading two_meters]).1) <= 1.
Proof.
  split; [reflexivity|].
  exact (proj1 (single_shot_one_entry plain_single true d0 0 0
                  [reading two_meters; reading two_meters] eq_refl)).
Defined.


(** X12 on the bench. *)
Lemma plain_text_output_witness :
  encoder plain = None /\
  encodes (main plain true d0 0 0 [reading two_meters; interrupted]).1 = [] /\
  length (lines (main plain true d0 0 0 [reading two_meters; interrupted]).1) = 2.
Proof.
  split; [reflexivity|].
  split; [|reflexivity].
  exact (proj1 (plain_text_output plain true d0 0 0 [reading two_meters; interrupted]
                  eq_refl)).
Defined.

(** X13 on the bench: two records through the XML encoder. *)
Lemma structured_output_witness :
  encoder xml = Some XmlEncoder /\
  length (log_entries (main xml true d0 0 0 [reading two_meters; interrupted]).1) = 2 /\
  map fst (encodes (main xml true d0 0 0 [reading two_meters; interrupted]).1)
  = log_entries (main xml true d0 0 0 [reading two_meters; interrupted]).1.
Proof.
  split; [reflexivity|]. split; [reflexivity|].
  exact (proj1 (structured_output xml true d0 0 0 [reading two_meters; interrupted]
                  XmlEncoder eq_refl)).
Defined.

(** X14 on the bench: [-tunergain] was given, nothing else. *)
Lemma default_tuning_witness :
  protocol_of (ascii_lower "SCM") = Some SCM /\
  tunings (NewReceiver ascii_lower new_decoder sample_rate
             (setup "SCM" false ["tunergain"] true)).1
  = [SuSetCenterFreq 920299072; SuSetSampleRate 2392064].
Proof.
  split; [reflexivity|].
  exact (default_tuning ascii_lower new_decoder sample_rate
           (setup "SCM" false ["tunergain"] true) SCM eq_refl eq_refl).
Defined.

(** X15 on the bench: an unknown message type. *)
Lemma startup_failure_is_fatal_witness :
  protocol_of (ascii_lower (msgType (setup "r900" false [] true))) = None /\
  (program ascii_lower new_decoder sample_rate parsers (setup "r900" false [] true)
     plain true 0 0 [reading one_meter]).2 = Exited 1.
Proof.
  split; [reflexivity|].
  exact (proj1 (startup_failure_is_fatal ascii_lower new_decoder sample_rate parsers
                  (setup "r900" false [] true) plain true 0 0 [reading one_meter]
                  (or_introl eq_refl))).
Defined.

End MoreOnTheBench.
